(** * studio-ui: path utilities and the preview search panel

    A shallow embedding of
    - [utils/path]: [getPathFromPreviewURL], [getPreviewURLFromPath],
      [withoutIndex], [withIndex], [itemsFromPath], [getIndividualPaths];
    - [components/PreviewSearchPanel]: [onDragStart], [onDragEnd] and the
      observable pipeline built by [onSearch].

    JavaScript strings are modelled as [string] (a sequence of character
    codes), lookup tables as [gmap string _], [undefined] as [None]. *)

From Stdlib Require Import ZArith Ascii Bool.
From Stdlib Require String.
From stdpp Require Import base option list strings gmap.

#[local] Open Scope Z_scope.
#[local] Arguments String.append : simpl nomatch.

(** ** JavaScript string primitives used by the sources *)

Module Js.

(** [s.startsWith(pat)]; also the test "pat occurs at this position". *)
Fixpoint startsWith (s pat : string) : bool :=
  match pat, s with
  | EmptyString, _ => true
  | String _ _, EmptyString => false
  | String a pat', String b s' => Ascii.eqb a b && startsWith s' pat'
  end.

(** [s.substring(n)] for a natural [n]: drop the first [n] characters. *)
Fixpoint drop (n : nat) (s : string) : string :=
  match n, s with
  | O, _ => s
  | S _, EmptyString => EmptyString
  | S n', String _ s' => drop n' s'
  end.

(** [s.substring(start)]: a negative [start] is clamped to [0]. *)
Definition substring (s : string) (start : Z) : string :=
  drop (Z.to_nat start) s.

(** Position of the first occurrence of [pat] in [s], if any. *)
Fixpoint search (s pat : string) : option nat :=
  if startsWith s pat then Some O
  else match s with
       | EmptyString => None
       | String _ s' => S <$> search s' pat
       end.

(** [s.indexOf(pat)]: [-1] when [pat] does not occur. *)
Definition indexOf (s pat : string) : Z :=
  match search s pat with
  | Some i => Z.of_nat i
  | None => -1
  end.

(** [s.replace(pat, rep)] with a string pattern: only the first
    occurrence is replaced.  (The replacement strings of the sources
    contain no [$] pattern.) *)
Fixpoint replace (s pat rep : string) : string :=
  if startsWith s pat then rep +:+ drop (String.length pat) s
  else match s with
       | EmptyString => EmptyString
       | String c s' => String c (replace s' pat rep)
       end.

(** [s.split(sep)] for a separator of one character, which is what every
    call site of the sources passes. *)
Fixpoint split (s : string) (sep : ascii) : list string :=
  match s with
  | EmptyString => [EmptyString]
  | String c s' =>
      if Ascii.eqb c sep then EmptyString :: split s' sep
      else match split s' sep with
           | h :: t => String c h :: t
           | [] => [String c EmptyString]
           end
  end.

(** [array[0]] on the result of [split], which is never empty. *)
Definition first (l : list string) : string := hd EmptyString l.

(** [array.join(sep)]. *)
Definition join (l : list string) (sep : string) : string :=
  String.concat sep l.

(** [array.indexOf(x)] with strict equality on strings. *)
Fixpoint arrayIndexOf (l : list string) (x : string) : Z :=
  match l with
  | [] => -1
  | y :: l' =>
      if String.eqb y x then 0
      else let r := arrayIndexOf l' x in if r <? 0 then -1 else r + 1
  end.

(** [array.slice(0, stop)] for [0 <= stop]. *)
Definition slice0 {A} (l : list A) (stop : Z) : list A :=
  take (Z.to_nat stop) l.

(** [a ?? b] on possibly-undefined values. *)
Definition nullish {A} (a b : option A) : option A :=
  match a with
  | Some x => Some x
  | None => b
  end.

End Js.

Infix "??" := Js.nullish (at level 61, left associativity).

(** ** The fragment of JavaScript regular expressions used by the sources

    A pattern is an ordered alternation of sequences of atoms.  No sequence
    has a quantifier, so at a given position the match is the first
    alternative that matches there, and [replace] with the [g] flag scans
    the input from left to right, resuming after each match. *)

Module Regex.

Inductive atom :=
| Lit (c : ascii)   (* a literal character *)
| Any               (* [.]: any character but a line terminator *)
| Start             (* [^] without the [m] flag *)
| End.              (* [$] without the [m] flag *)

Definition isLineTerminator (c : ascii) : bool :=
  Ascii.eqb c "010" || Ascii.eqb c "013".

(** Characters with a meaning of their own in a pattern source. *)
Definition isSyntax (c : ascii) : bool :=
  existsb (Ascii.eqb c)
    ["\"; "^"; "$"; "."; "*"; "+"; "?"; "("; ")"; "["; "]"; "{"; "}"; "|"]%char.

(** Number of characters consumed when the sequence [p] matches at the
    start of [s]; [bos] tells whether [s] starts the whole input. *)
Fixpoint matchSeq (p : list atom) (bos : bool) (s : string) : option nat :=
  match p with
  | [] => Some O
  | Lit c :: p' =>
      match s with
      | String a s' => if Ascii.eqb a c then S <$> matchSeq p' false s' else None
      | EmptyString => None
      end
  | Any :: p' =>
      match s with
      | String a s' => if isLineTerminator a then None else S <$> matchSeq p' false s'
      | EmptyString => None
      end
  | Start :: p' => if bos then matchSeq p' bos s else None
  | End :: p' =>
      match s with
      | EmptyString => matchSeq p' bos s
      | String _ _ => None
      end
  end.

Fixpoint matchAlt (alts : list (list atom)) (bos : bool) (s : string) : option nat :=
  match alts with
  | [] => None
  | p :: alts' =>
      match matchSeq p bos s with
      | Some n => Some n
      | None => matchAlt alts' bos s
      end
  end.

(** [s.replace(re, '')] for a global [re]: [skip] counts the characters of
    the current match that are still to be dropped.  An empty match
    removes nothing and the scan moves on by one character. *)
Fixpoint removeAllFrom (alts : list (list atom)) (skip : nat) (bos : bool)
    (s : string) : string :=
  match s with
  | EmptyString => EmptyString
  | String c s' =>
      match skip with
      | S k => removeAllFrom alts k false s'
      | O =>
          match matchAlt alts bos s with
          | Some (S n) => removeAllFrom alts n false s'
          | _ => String c (removeAllFrom alts O false s')
          end
      end
  end.

Definition removeAll (s : string) (alts : list (list atom)) : string :=
  removeAllFrom alts O true s.

(** The atoms of an escaped literal such as [\/index\.xml]. *)
Fixpoint literal (s : string) : list atom :=
  match s with
  | EmptyString => []
  | String c s' => Lit c :: literal s'
  end.

(** The atoms of a pattern source interpolated as it is.  This is the
    meaning of the source for strings whose only syntax character is
    the dot ([plain]). *)
Fixpoint source (s : string) : list atom :=
  match s with
  | EmptyString => []
  | String c s' => (if Ascii.eqb c "." then Any else Lit c) :: source s'
  end.

Fixpoint plain (s : string) : bool :=
  match s with
  | EmptyString => true
  | String c s' => (Ascii.eqb c "." || negb (isSyntax c)) && plain s'
  end.

(** No syntax character at all: the source matches itself only. *)
Fixpoint verbatim (s : string) : bool :=
  match s with
  | EmptyString => true
  | String c s' => negb (isSyntax c) && verbatim s'
  end.

End Regex.

(** ** utils/path *)

Definition getPathFromPreviewURL (previewURL : string) : string :=
  let pagePath := previewURL in
  let pagePath :=
    if Js.indexOf pagePath "?" >? 0 then Js.first (Js.split pagePath "?") else pagePath in
  let pagePath :=
    if Js.indexOf pagePath "#" >? 0 then Js.first (Js.split pagePath "#") else pagePath in
  let pagePath :=
    if Js.indexOf pagePath ";" >? 0 then Js.first (Js.split pagePath ";") else pagePath in
  let pagePath := Js.replace pagePath ".html" ".xml" in
  let pagePath :=
    if Js.indexOf pagePath ".xml" =? -1 then
      let pagePath :=
        if negb (String.eqb (Js.substring pagePath (Z.of_nat (String.length pagePath) - 1)) "/")
        then pagePath +:+ "/" else pagePath in
      pagePath +:+ "index.xml"
    else pagePath in
  "/site/website" +:+ pagePath.

Definition withoutIndex (path : string) : string :=
  Js.replace path "/index.xml" "".

Definition withIndex (path : string) : string :=
  withoutIndex path +:+ "/index.xml".

Definition getPreviewURLFromPath (path : string) : string :=
  let path := Js.replace (withoutIndex path) "/site/website" "" in
  path.

(** Modelled from the spec: [models/Item] is not part of the sources; a
    [DetailedItem] carries an id, a path, a label, a content type, a
    previewable flag and a children-loaded flag.  The path utilities only
    store and return items. *)
Record DetailedItem := {
  item_id : string;
  item_path : string;
  item_label : string;
  item_contentTypeId : string;
  item_previewable : bool;
  item_childrenLoaded : bool
}.

(** The callback of [.map] in [itemsFromPath]; [accum] is the variable the
    closure updates from one folder to the next. *)
Fixpoint itemsFromPath_map (items : gmap string DetailedItem) (accum : string)
    (folders : list string) : list (option DetailedItem) :=
  match folders with
  | [] => []
  | folder :: folders' =>
      let accum := accum +:+ "/" +:+ folder in
      (items !! accum ?? items !! withIndex accum)
        :: itemsFromPath_map items accum folders'
  end.

(** The pattern
    [new RegExp(`${rootWithIndex}|${rootWithoutIndex}|\/index\.xml|/$`, 'g')].
    The two roots are interpolated as they are, not escaped.  When the dot
    is their only syntax character ([Regex.plain]) the pattern is the
    alternation below.  Any other syntax character in a root (a group, a
    quantifier, a class, an escape, a bar) makes [new RegExp] build a
    pattern outside the fragment of [Regex], or throw a [SyntaxError]:
    these runs are not described, and the result is [None]. *)
Definition itemsFromPath_regExp (rootWithIndex rootWithoutIndex : string)
  : option (list (list Regex.atom)) :=
  if Regex.plain rootWithIndex && Regex.plain rootWithoutIndex then
    Some [ Regex.source rootWithIndex;
           Regex.source rootWithoutIndex;
           Regex.literal "/index.xml";
           [Regex.Lit "/"; Regex.End] ]
  else None.

(** A slot of the chain is [None] where the source yields [undefined].
    The early [return] for the root comes before the pattern is built and
    is described for every root; past it, the result is [None] for the
    roots whose pattern [itemsFromPath_regExp] does not describe. *)
Definition itemsFromPath (path root : string) (items : gmap string DetailedItem)
  : option (list (option DetailedItem)) :=
  let rootWithIndex := withIndex root in
  let rootWithoutIndex := withoutIndex root in
  let rootItem := items !! rootWithIndex ?? items !! root in
  if String.eqb path rootWithIndex || String.eqb path root then Some [rootItem]
  else
    match itemsFromPath_regExp rootWithIndex rootWithoutIndex with
    | Some regExp =>
        let pathWithoutRoot := Regex.removeAll path regExp in
        let accum := rootWithoutIndex in
        Some (rootItem
                :: itemsFromPath_map items accum (drop 1 (Js.split pathWithoutRoot "/")))
    | None => None
    end.

(** The [do ... while (array.length)] loop of [getIndividualPaths]: the body
    runs before the test, and every round pops one element. *)
Fixpoint getIndividualPaths_loop (fuel : nat) (array paths : list string)
  : list string :=
  match fuel with
  | O => paths
  | S fuel' =>
      let paths := paths ++ ["/" +:+ Js.join array "/"] in
      let array := removelast array in
      if Nat.eqb (length array) 0 then paths
      else getIndividualPaths_loop fuel' array paths
  end.

(** [rootPath] is optional; [if (rootPath)] is false for [undefined] and for
    the empty string. *)
Definition getIndividualPaths (path : string) (rootPath : option string)
  : list string :=
  let array :=
    Js.split
      (Regex.removeAll path [[Regex.Start; Regex.Lit "/"]; [Regex.Lit "/"; Regex.End]])
      "/" in
  let paths := getIndividualPaths_loop (S (length array)) array [] in
  match rootPath with
  | Some rootPath =>
      if String.eqb rootPath "" then paths
      else if Js.arrayIndexOf paths (withIndex rootPath) >=? 0 then
        Js.slice0 paths (Js.arrayIndexOf paths (withIndex rootPath) + 1)
      else
        Js.slice0 paths (Js.arrayIndexOf paths rootPath + 1)
  | None => paths
  end.

(** [array.slice(start, stop)] and [array.splice(start)] for indices within
    [0 <= start <= stop]; [splice] with one argument returns the elements
    from [start] on. *)
Module JsArray.

Definition slice {A} (l : list A) (start stop : nat) : list A :=
  take (stop - start) (drop start l).

Definition splice {A} (l : list A) (start : nat) : list A :=
  drop start l.

End JsArray.

Definition getParentPath (path : string) : string :=
  let splitPath := Js.split (withoutIndex path) "/" in
  let splitPath := removelast splitPath in
  Js.join splitPath "/".

(** The callback of [.map] sees the array after [pop]. *)
Definition getParentsFromPath (path rootPath : string) : list string :=
  let splitPath := Js.split (Js.replace (withoutIndex path) rootPath "") "/" in
  let splitPath := removelast splitPath in
  rootPath
    :: JsArray.splice
         (imap (fun i value =>
                  rootPath +:+ "/" +:+ Js.join (JsArray.slice splitPath 1 (i + 1)) "/")
               splitPath)
         2.

(** ** components/PreviewSearchPanel *)

(** Modelled from the spec: [models/Search], [models/ContentInstance],
    [models/ContentType] and [models/ApiResponse] are not part of the
    sources; the records keep the fields the panel reads. *)
Record SearchItem := {
  path : string;
  name : string;
  type : string
}.

Record SearchResult := {
  items : list SearchItem;
  total : nat
}.

Record ContentInstanceSystemProps := {
  craftercms_path : string;
  craftercms_label : string;
  contentTypeId : string
}.

Record ContentInstance := {
  craftercms : ContentInstanceSystemProps
}.

Record ContentType := {
  id : string;
  contentType_name : string;
  contentType_type : string
}.

Record ApiResponse := {
  code : Z;
  message : string
}.

(** The value an observable fails with; the error callback of [onSearch]
    reads its [response] field. *)
Record AjaxError := {
  response : ApiResponse
}.

(** *** Drag notifications

    Messages published on the host-to-guest bus, [hostToGuest$.next(...)].
    The fields of a payload are JavaScript values and may be [undefined]. *)
Inductive Message :=
| COMPONENT_INSTANCE_DRAG_STARTED
    (instance : option ContentInstance) (contentType : option ContentType)
| ASSET_DRAG_STARTED (payload : SearchItem)
| COMPONENT_INSTANCE_DRAG_ENDED
| ASSET_DRAG_ENDED.

Inductive Exception :=
| TypeError.

(** A handler runs against the bus, the list of the messages published so
    far, and either returns or throws. *)
Definition Handler (A : Type) : Type :=
  list Message -> (Exception + A) * list Message.

Definition ret {A} (x : A) : Handler A := fun bus => (inr x, bus).

Definition throw {A} (e : Exception) : Handler A := fun bus => (inl e, bus).

Definition bind {A B} (m : Handler A) (k : A -> Handler B) : Handler B :=
  fun bus =>
    match m bus with
    | (inl e, bus') => (inl e, bus')
    | (inr x, bus') => k x bus'
    end.

Notation "x <- m ;; k" := (bind m (fun x => k))
  (at level 100, m at next level, right associativity).

(** [hostToGuest$.next(message)] *)
Definition next (message : Message) : Handler unit :=
  fun bus => (inr tt, bus ++ [message]).

(** Reading a property of a value that may be [undefined] or [null]. *)
Definition member {A B} (o : option A) (prop : A -> B) : Handler B :=
  match o with
  | Some x => ret (prop x)
  | None => throw TypeError
  end.

(** [contentTypesLookup] is [null] until the content types are known.  The
    argument of [next] is evaluated before the call: first the key
    [instance.craftercms.contentTypeId], then the entry of
    [contentTypesLookup] under it. *)
Definition onDragStart (contentInstanceLookup : gmap string ContentInstance)
    (contentTypesLookup : option (gmap string ContentType)) (item : SearchItem)
  : Handler unit :=
  if String.eqb (type item) "Component" then
    let instance := contentInstanceLookup !! path item in
    key <- member instance (fun i => contentTypeId (craftercms i)) ;;
    contentType <- member contentTypesLookup (fun table => table !! key) ;;
    next (COMPONENT_INSTANCE_DRAG_STARTED instance contentType)
  else
    next (ASSET_DRAG_STARTED item).

Definition onDragEnd (item : SearchItem) : Handler unit :=
  next (if String.eqb (type item) "Component"
        then COMPONENT_INSTANCE_DRAG_ENDED else ASSET_DRAG_ENDED).

(** *** The pipeline of [onSearch]

    [search(...).pipe(takeUntil(unMount$), switchMap(...)).subscribe(next, error)].
    [search] and [getContentInstance] answer at most once: a value followed
    by completion, or an error.  What the outside does to a subscribed
    pipeline is an [Event]; what the pipeline does to the outside is an
    [Effect].  The state of the pipeline is the state of its operators:
    - [takeUntil(unMount$)] is subscribed to the search request until the
      request ends or [unMount$] emits; it then completes downstream;
    - [switchMap] subscribes to the observable its projection returns, and
      completes once its source has completed and the inner observable is
      done;
    - [forkJoin(requests)] emits the values of all its requests once every
      one has answered, and fails as soon as one fails;
    - the subscriber runs [next] on a value and [error] on a failure, and
      nothing after a failure or a completion. *)

(** Modelled from the spec: [createLookupTable] of [utils/object] is not
    part of the sources; the ContentInstanceLookup maps the path of an item
    to its hydrated instance. *)
Definition createLookupTable (contentInstances : list ContentInstance)
  : gmap string ContentInstance :=
  fold_left (fun table i => <[craftercms_path (craftercms i) := i]> table)
    contentInstances ∅.

(** What the subscription emits: [{ result, contentInstances }]. *)
Record Response := {
  result : SearchResult;
  contentInstances : option (list ContentInstance)
}.

Inductive Effect :=
| GetContentInstance (path : string)   (* a request [getContentInstance(site, path, ...)] *)
| SetSearchResults (r : SearchResult)
| SetContentInstanceLookup (table : gmap string ContentInstance)
| SetError (e : ApiResponse).

(** The two callbacks passed to [subscribe]. *)
Definition subscribe_next (response : Response) : list Effect :=
  SetSearchResults (result response)
    :: match contentInstances response with
       | Some instances => [SetContentInstanceLookup (createLookupTable instances)]
       | None => []
       end.

Definition subscribe_error (e : AjaxError) : list Effect :=
  [SetError (response e)].

(** The inner observable [forkJoin(requests)]: the last value of every
    request, [None] while the request is pending. *)
Record ForkJoin := {
  fj_result : SearchResult;
  fj_values : list (option ContentInstance)
}.

Record Pipeline := {
  searchSubscribed : bool;       (* [takeUntil] is subscribed to [search(...)] *)
  innerJoin : option ForkJoin;   (* the inner subscription of [switchMap] *)
  stopped : bool;                (* the subscriber got [error] or [complete] *)
  effects : list Effect
}.

Definition subscribed : Pipeline :=
  {| searchSubscribed := true; innerJoin := None; stopped := false; effects := [] |}.

Inductive Event :=
| SearchNext (r : SearchResult)
| SearchError (e : AjaxError)
| InstanceNext (k : nat) (instance : ContentInstance)
| InstanceError (k : nat) (e : AjaxError)
| Unmount.                        (* [unMount$.next(); unMount$.complete()] *)

(** The subscriber ignores everything once it is stopped. *)
Definition deliverNext (response : Response) (p : Pipeline) : Pipeline :=
  if stopped p then p
  else {| searchSubscribed := searchSubscribed p; innerJoin := innerJoin p;
          stopped := false; effects := effects p ++ subscribe_next response |}.

Definition deliverError (e : AjaxError) (p : Pipeline) : Pipeline :=
  if stopped p then p
  else {| searchSubscribed := searchSubscribed p; innerJoin := innerJoin p;
          stopped := true; effects := effects p ++ subscribe_error e |}.

Definition deliverComplete (p : Pipeline) : Pipeline :=
  {| searchSubscribed := searchSubscribed p; innerJoin := innerJoin p;
     stopped := true; effects := effects p |}.

(** [takeUntil] lets go of [search(...)]: the request has completed or
    failed, or the notifier has fired. *)
Definition unsubscribeSearch (p : Pipeline) : Pipeline :=
  {| searchSubscribed := false; innerJoin := innerJoin p;
     stopped := stopped p; effects := effects p |}.

Definition setInner (inner : option ForkJoin) (p : Pipeline) : Pipeline :=
  {| searchSubscribed := searchSubscribed p; innerJoin := inner;
     stopped := stopped p; effects := effects p |}.

(** [switchMap] completes when its source has completed and no inner
    subscription is left. *)
Definition outerComplete (p : Pipeline) : Pipeline :=
  let p := unsubscribeSearch p in
  match innerJoin p with
  | Some _ => p
  | None => deliverComplete p
  end.

Definition innerComplete (p : Pipeline) : Pipeline :=
  let p := setInner None p in
  if searchSubscribed p then p else deliverComplete p.

(** The [forEach] of the projection: one request per component item. *)
Definition requests (r : SearchResult) : list string :=
  path <$> filter (fun item => String.eqb (type item) "Component" = true) (items r).

(** The projection passed to [switchMap]. *)
Definition project (r : SearchResult) (p : Pipeline) : Pipeline :=
  let p := {| searchSubscribed := searchSubscribed p; innerJoin := innerJoin p;
              stopped := stopped p;
              effects := effects p ++ (GetContentInstance <$> requests r) |} in
  match requests r with
  | [] =>
      (* of({ result, contentInstances: null }) *)
      innerComplete (deliverNext {| result := r; contentInstances := None |} p)
  | _ :: _ =>
      (* forkJoin(requests).pipe(map(...)) *)
      setInner (Some {| fj_result := r;
                        fj_values := replicate (length (requests r)) None |}) p
  end.

(** One event on the pipeline.  [search] answers with a value and
    completes at once; an answer or a failure of a request that is not
    pending, and any event of a subscription that is gone, does nothing. *)
Definition step (p : Pipeline) (ev : Event) : Pipeline :=
  match ev with
  | SearchNext r =>
      if searchSubscribed p then outerComplete (project r p) else p
  | SearchError e =>
      if searchSubscribed p then deliverError e (setInner None (unsubscribeSearch p))
      else p
  | Unmount =>
      if searchSubscribed p then outerComplete p else p
  | InstanceNext k instance =>
      match innerJoin p with
      | Some fj =>
          match fj_values fj !! k with
          | Some None =>
              let values := <[k := Some instance]> (fj_values fj) in
              match mapM (fun v => v) values with
              | Some instances =>
                  innerComplete
                    (deliverNext {| result := fj_result fj;
                                    contentInstances := Some instances |} p)
              | None =>
                  setInner (Some {| fj_result := fj_result fj; fj_values := values |}) p
              end
          | _ => p
          end
      | None => p
      end
  | InstanceError k e =>
      match innerJoin p with
      | Some fj =>
          match fj_values fj !! k with
          | Some None => deliverError e (setInner None p)
          | _ => p
          end
      | None => p
      end
  end.

Definition run (p : Pipeline) (events : list Event) : Pipeline :=
  fold_left step events p.

(** The writes into component state among the effects of a pipeline. *)
Definition isWrite (e : Effect) : bool :=
  match e with
  | GetContentInstance _ => false
  | _ => true
  end.

Definition writes (p : Pipeline) : list Effect :=
  filter (fun e => isWrite e = true) (effects p).

Definition fetches (p : Pipeline) : list Effect :=
  filter (fun e => isWrite e = false) (effects p).

(** ** Sample data *)

Definition page (p : string) : DetailedItem :=
  {| item_id := p; item_path := p; item_label := p; item_contentTypeId := "/page/entry";
     item_previewable := true; item_childrenLoaded := false |}.

(** An index whose keys mix the two forms. *)
Definition siteIndex : gmap string DetailedItem :=
  <["/site/website/index.xml" := page "/site/website/index.xml"]>
    (<["/site/website/a" := page "/site/website/a"]>
      (<["/site/website/a/b/index.xml" := page "/site/website/a/b/index.xml"]>
        (<["/site/website/a/b/c" := page "/site/website/a/b/c"]> ∅))).

(** An index that knows the root under its implicit key only. *)
Definition homeIndex : gmap string DetailedItem :=
  {[ "/site/website" := page "/site/website" ]}.

(** An index in which a level is named like the root. *)
Definition nestedIndex : gmap string DetailedItem :=
  <["/a" := page "/a"]>
    (<["/a/b" := page "/a/b"]>
      (<["/a/b/a" := page "/a/b/a"]>
        (<["/a/b/a/c" := page "/a/b/a/c"]> ∅))).

Definition component (p : string) : SearchItem :=
  {| path := p; name := p; type := "Component" |}.

Definition image (p : string) : SearchItem :=
  {| path := p; name := p; type := "Image" |}.

Definition instanceOf (p : string) : ContentInstance :=
  {| craftercms :=
       {| craftercms_path := p; craftercms_label := p;
          contentTypeId := "/component/feature" |} |}.

Definition featureType : ContentType :=
  {| id := "/component/feature"; contentType_name := "Feature";
     contentType_type := "component" |}.

Definition componentTypes : gmap string ContentType :=
  {[ "/component/feature" := featureType ]}.

(** A result with one component item, one with two and an image, and one
    without any. *)
Definition bannerResult : SearchResult :=
  {| items := [component "/site/components/banner.xml"]; total := 1 |}.

Definition featuresResult : SearchResult :=
  {| items := [component "/site/components/a.xml";
               image "/static-assets/images/logo.png";
               component "/site/components/b.xml"];
     total := 3 |}.


Definition serverError : AjaxError :=
  {| response := {| code := 500; message := "Internal server error" |} |}.

(** ** Vocabulary of the statements *)

(** [c] is one of the characters of [s]. *)
Fixpoint mem (c : ascii) (s : string) : bool :=
  match s with
  | EmptyString => false
  | String a s' => Ascii.eqb a c || mem c s'
  end.

(** The characters of [s] before the first [c]. *)
Fixpoint before (c : ascii) (s : string) : string :=
  match s with
  | EmptyString => EmptyString
  | String a s' => if Ascii.eqb a c then EmptyString else String a (before c s')
  end.

(** The last character of [s]. *)
Fixpoint lastChar (s : string) : option ascii :=
  match s with
  | EmptyString => None
  | String a EmptyString => Some a
  | String _ s' => lastChar s'
  end.

(** The two canonical forms of a path: the implicit form names no index
    document, the explicit form is an implicit form followed by
    [/index.xml]. *)
Definition implicitForm (p : string) : Prop :=
  Js.indexOf p "/index.xml" = -1.

Definition explicitForm (p : string) : Prop :=
  ∃ q, implicitForm q ∧ p = q +:+ "/index.xml".

(** The characters that end the path part of a preview URL. *)
Definition isDelimiter (c : ascii) : bool :=
  Ascii.eqb c "?" || Ascii.eqb c "#" || Ascii.eqb c ";".

Definition startsWithDelimiter (s : string) : bool :=
  match s with
  | EmptyString => false
  | String c _ => isDelimiter c
  end.

(** The characters of [s] before its first delimiter. *)
Fixpoint untilDelimiter (s : string) : string :=
  match s with
  | EmptyString => EmptyString
  | String c s' => if isDelimiter c then EmptyString else String c (untilDelimiter s')
  end.

(** A path segment is not empty and has no separator. *)
Definition segment (seg : string) : Prop :=
  seg ≠ "" ∧ mem "/" seg = false.

(** [/seg1/seg2/.../segn], the empty string when there is no segment. *)
Fixpoint segmentsPath (segs : list string) : string :=
  match segs with
  | [] => ""
  | seg :: segs' => "/" +:+ seg +:+ segmentsPath segs'
  end.

(** The item the index holds for a path, stored under either form; the
    implicit key is looked up first. *)
Definition probe (items : gmap string DetailedItem) (key : string)
  : option DetailedItem :=
  items !! key ?? items !! (key +:+ "/index.xml").

(** The pattern [itemsFromPath] builds for a root whose implicit form is
    [r]. *)
Definition rootPattern (r : string) : list (list Regex.atom) :=
  [ Regex.source (r +:+ "/index.xml");
    Regex.source r;
    Regex.literal "/index.xml";
    [Regex.Lit "/"; Regex.End] ].

(** The pattern [/^\/|\/$/g] of [getIndividualPaths]. *)
Definition trimPattern : list (list Regex.atom) :=
  [[Regex.Start; Regex.Lit "/"]; [Regex.Lit "/"; Regex.End]].

(** An optional [/]. *)
Definition slashIf (b : bool) : string := if b then "/" else "".

(** The paths of the levels below [accum], one per segment. *)
Fixpoint levels (accum : string) (segs : list string) : list string :=
  match segs with
  | [] => []
  | seg :: segs' =>
      let accum := accum +:+ "/" +:+ seg in
      accum :: levels accum segs'
  end.

(** The index without the item of a path, whichever form it is stored
    under. *)
Definition removeItem (key : string) (items : gmap string DetailedItem)
  : gmap string DetailedItem :=
  delete (key +:+ "/index.xml") (delete key items).

(** The requests issued for a result, as effects. *)
Definition fetchesOf (r : SearchResult) : list Effect :=
  GetContentInstance <$> requests r.

(** The pipeline after [search] has answered [r], while [forkJoin] waits:
    [values] holds what each request has answered so far. *)
Definition joining (r : SearchResult) (values : list (option ContentInstance))
  : Pipeline :=
  {| searchSubscribed := false;
     innerJoin := Some {| fj_result := r; fj_values := values |};
     stopped := false;
     effects := fetchesOf r |}.

(** The pipeline after it has ended, with the writes it made. *)
Definition ended (r : SearchResult) (written : list Effect) : Pipeline :=
  {| searchSubscribed := false; innerJoin := None; stopped := true;
     effects := fetchesOf r ++ written |}.

(** Where a pipeline that was joining with the values [vs] can be after
    the events [es]: still joining, ended with the combined response, or
    ended with an error.  Every value of the join was there before or is
    the answer of an event. *)
Inductive Outcome (r : SearchResult) (vs : list (option ContentInstance))
    (es : list Event) : Pipeline → Prop :=
| StillJoining vs' :
    length vs' = length vs →
    (∀ k c, vs' !! k = Some (Some c) →
            vs !! k = Some (Some c) ∨ InstanceNext k c ∈ es) →
    Outcome r vs es (joining r vs')
| Published cis :
    length cis = length vs →
    (∀ k c, cis !! k = Some c →
            vs !! k = Some (Some c) ∨ InstanceNext k c ∈ es) →
    Outcome r vs es
      (ended r (subscribe_next {| result := r; contentInstances := Some cis |}))
| Failed k e :
    InstanceError k e ∈ es →
    Outcome r vs es (ended r (subscribe_error e)).



Definition isInstanceNext (ev : Event) : Prop :=
  match ev with
  | InstanceNext _ _ => True
  | _ => False
  end.

Definition isInstanceError (ev : Event) : Prop :=
  match ev with
  | InstanceError _ _ => True
  | _ => False
  end.


(** The messages about a component instance, as opposed to an asset. *)
Definition forComponent (m : Message) : bool :=
  match m with
  | COMPONENT_INSTANCE_DRAG_STARTED _ _ | COMPONENT_INSTANCE_DRAG_ENDED => true
  | ASSET_DRAG_STARTED _ | ASSET_DRAG_ENDED => false
  end.

(** The events of the requests of the join. *)
Definition isInstanceEvent (ev : Event) : Prop :=
  isInstanceNext ev ∨ isInstanceError ev.

(** ** Facts about the string primitives *)

Section StringFacts.

Implicit Types (s t u v pat rep : string) (c d : ascii).

#[local] Arguments Js.search : simpl never.
#[local] Arguments Js.replace : simpl never.

Lemma search_cons a s pat :
  Js.search (String a s) pat =
  if Js.startsWith (String a s) pat then Some O else S <$> Js.search s pat.
Proof. done. Qed.

Lemma replace_cons a s pat rep :
  Js.replace (String a s) pat rep =
  if Js.startsWith (String a s) pat
  then rep +:+ Js.drop (String.length pat) (String a s)
  else String a (Js.replace s pat rep).
Proof. done. Qed.

Lemma append_nil_r s : s +:+ "" = s.
Proof. induction s as [|a s IH]; simpl; [done | by rewrite IH]. Qed.

Lemma append_assoc s t u : (s +:+ t) +:+ u = s +:+ t +:+ u.
Proof. induction s as [|a s IH]; simpl; [done | by rewrite IH]. Qed.

Lemma length_append s t :
  String.length (s +:+ t) = (String.length s + String.length t)%nat.
Proof. induction s as [|a s IH]; simpl; [done | by rewrite IH]. Qed.

Lemma mem_app c s t : mem c (s +:+ t) = mem c s || mem c t.
Proof.
  induction s as [|a s IH]; simpl; [done |].
  by rewrite IH, orb_assoc.
Qed.

Lemma startsWith_nil s : Js.startsWith s "" = true.
Proof. by destruct s. Qed.

Lemma startsWith_app pat t : Js.startsWith (pat +:+ t) pat = true.
Proof.
  induction pat as [|a pat IH]; simpl; [apply startsWith_nil |].
  by rewrite Ascii.eqb_refl, IH.
Qed.

Lemma startsWith_inv s pat :
  Js.startsWith s pat = true → ∃ t, s = pat +:+ t.
Proof.
  revert s. induction pat as [|a pat IH]; intros s H.
  - by exists s.
  - destruct s as [|b s]; simpl in H; [done |].
    apply andb_true_iff in H as [Hab Hs].
    apply Ascii.eqb_eq in Hab as ->.
    destruct (IH _ Hs) as [t ->]. by exists t.
Qed.

Lemma drop_app_length pat t : Js.drop (String.length pat) (pat +:+ t) = t.
Proof. induction pat as [|a pat IH]; simpl; [by destruct t | done]. Qed.

(** A match of [pat] at the start of [u +:+ v] lies within [u], or runs
    over the end of [u] into [v]. *)
Lemma startsWith_app_inv u v pat :
  Js.startsWith (u +:+ v) pat = true →
  Js.startsWith u pat = true ∨
  ∃ t, t ≠ "" ∧ pat = u +:+ t ∧ Js.startsWith v t = true.
Proof.
  revert pat. induction u as [|a u IH]; intros pat H.
  - destruct pat as [|b pat]; [by left |].
    right. exists (String b pat). by simpl in *.
  - destruct pat as [|b pat]; [by left |].
    simpl in H. apply andb_true_iff in H as [Hab H].
    apply Ascii.eqb_eq in Hab as <-.
    destruct (IH _ H) as [Hu | (t & Ht & -> & Hv)].
    + left. simpl. by rewrite Ascii.eqb_refl.
    + right. by exists t.
Qed.

Lemma search_nil_pat s : Js.search s "" = Some O.
Proof. destruct s; simpl; done. Qed.

Lemma search_cons_None a s pat :
  Js.search (String a s) pat = None ↔
  Js.startsWith (String a s) pat = false ∧ Js.search s pat = None.
Proof.
  rewrite search_cons. destruct (Js.startsWith (String a s) pat).
  - split; [done | by intros [? _]].
  - destruct (Js.search s pat); split; try done. by intros [_ ?].
Qed.

Lemma search_None_startsWith s pat :
  Js.search s pat = None → Js.startsWith s pat = false.
Proof.
  destruct s as [|a s]; [| by intros [? _]%search_cons_None].
  unfold Js.search. by destruct (Js.startsWith "" pat).
Qed.

Lemma replace_absent s pat rep :
  Js.search s pat = None → Js.replace s pat rep = s.
Proof.
  induction s as [|a s IH]; intros H.
  - unfold Js.replace. by rewrite (search_None_startsWith _ _ H).
  - apply search_cons_None in H as [H1 H2].
    rewrite replace_cons, H1. by rewrite IH.
Qed.

Lemma replace_here pat t rep : Js.replace (pat +:+ t) pat rep = rep +:+ t.
Proof.
  destruct (pat +:+ t) as [|a w] eqn:E; [unfold Js.replace | rewrite replace_cons];
    rewrite <- E; by rewrite startsWith_app, drop_app_length.
Qed.

Lemma search_here pat t : Js.search (pat +:+ t) pat = Some O.
Proof.
  destruct (pat +:+ t) as [|a w] eqn:E; [unfold Js.search | rewrite search_cons];
    rewrite <- E; by rewrite startsWith_app.
Qed.

(** When the first character of the pattern does not occur in [u], the
    search skips [u]. *)
Lemma startsWith_head_absent a s c pat :
  a ≠ c → Js.startsWith (String a s) (String c pat) = false.
Proof.
  intros Hne. simpl. apply Ascii.eqb_neq in Hne.
  by rewrite Ascii.eqb_sym, Hne.
Qed.

Lemma startsWith_app_l u v pat :
  Js.startsWith u pat = true → Js.startsWith (u +:+ v) pat = true.
Proof.
  intros [t ->]%startsWith_inv. rewrite append_assoc. apply startsWith_app.
Qed.

Lemma search_Some s pat i :
  Js.search s pat = Some i →
  ∃ u v, s = u +:+ pat +:+ v ∧ String.length u = i.
Proof.
  revert i. induction s as [|a s IH]; intros i; [unfold Js.search | rewrite search_cons].
  - destruct (Js.startsWith "" pat) eqn:E; [| done].
    intros [= <-]. apply startsWith_inv in E as [t Ht]. by exists "", t.
  - destruct (Js.startsWith (String a s) pat) eqn:E.
    + intros [= <-]. apply startsWith_inv in E as [t Ht]. by exists "", t.
    + destruct (Js.search s pat) as [j|] eqn:Ej; [| done].
      intros [= <-]. destruct (IH _ eq_refl) as (u & v & -> & Hu).
      exists (String a u), v. simpl. by rewrite Hu.
Qed.

Lemma search_occurs u pat v : is_Some (Js.search (u +:+ pat +:+ v) pat).
Proof.
  induction u as [|a u IH]; simpl.
  - rewrite search_here. by eexists.
  - rewrite search_cons. destruct (Js.startsWith _ pat); [by eexists |].
    destruct IH as [j ->]. by eexists.
Qed.

Lemma search_None s pat :
  Js.search s pat = None ↔ ∀ u v, s ≠ u +:+ pat +:+ v.
Proof.
  split.
  - intros H u v ->. destruct (search_occurs u pat v) as [j Hj]. congruence.
  - intros H. destruct (Js.search s pat) as [i|] eqn:E; [| done].
    destruct (search_Some _ _ _ E) as (u & v & -> & _). by destruct (H u v).
Qed.

(** A string without [pat] has no longer pattern ending in [pat], and
    neither of its parts has [pat]. *)
Lemma search_None_longer s t pat :
  Js.search s pat = None → Js.search s (t +:+ pat) = None.
Proof.
  rewrite !search_None. intros H u v ->.
  apply (H (u +:+ t) v). by rewrite !append_assoc.
Qed.

Lemma search_None_app u v pat :
  Js.search (u +:+ v) pat = None →
  Js.search u pat = None ∧ Js.search v pat = None.
Proof.
  rewrite !search_None. intros H. split.
  - intros u1 u2 ->. apply (H u1 (u2 +:+ v)). by rewrite !append_assoc.
  - intros v1 v2 ->. apply (H (u +:+ v1) v2). by rewrite !append_assoc.
Qed.

Lemma search_char s c : Js.search s (String c "") = None ↔ mem c s = false.
Proof.
  induction s as [|a s IH]; [done |].
  rewrite search_cons_None, IH. simpl.
  rewrite startsWith_nil, andb_true_r, (Ascii.eqb_sym c a).
  rewrite orb_false_iff. done.
Qed.

(** The search skips a part in which the first character of the pattern
    does not occur. *)
Lemma search_app_skip u v c pat :
  mem c u = false →
  Js.search (u +:+ v) (String c pat) =
  (λ i, (String.length u + i)%nat) <$> Js.search v (String c pat).
Proof.
  induction u as [|a u IH]; intros H.
  - simpl. by destruct (Js.search v _).
  - simpl in H. apply orb_false_iff in H as [Hac Hu].
    apply Ascii.eqb_neq in Hac.
    simpl. rewrite search_cons, startsWith_head_absent by done.
    rewrite IH by done. by destruct (Js.search v _).
Qed.

Lemma replace_app_skip u v c pat rep :
  mem c u = false →
  Js.replace (u +:+ v) (String c pat) rep = u +:+ Js.replace v (String c pat) rep.
Proof.
  induction u as [|a u IH]; intros H; [done |].
  simpl in H. apply orb_false_iff in H as [Hac Hu].
  apply Ascii.eqb_neq in Hac.
  simpl. rewrite replace_cons, startsWith_head_absent by done.
  by rewrite IH.
Qed.

(** No occurrence of the pattern straddles [u] and [v] when [v] starts
    with the first character of the pattern and that character does not
    occur again in the pattern. *)
Lemma startsWith_app_fresh a u v c pat :
  mem c pat = false →
  (v = "" ∨ ∃ v', v = String c v') →
  Js.startsWith (String a u +:+ v) (String c pat) =
  Js.startsWith (String a u) (String c pat).
Proof.
  intros Hc Hv.
  destruct (Js.startsWith (String a u) (String c pat)) eqn:E.
  { by apply startsWith_app_l. }
  destruct (Js.startsWith (String a u +:+ v) (String c pat)) eqn:E'; [| done].
  apply startsWith_app_inv in E' as [E' | (t & Ht & Hpat & Hvt)]; [congruence |].
  exfalso. simpl in Hpat. injection Hpat as _ ->.
  destruct t as [|b t]; [done |].
  destruct Hv as [-> | [v' ->]]; [done |].
  simpl in Hvt. apply andb_true_iff in Hvt as [Hb _].
  apply Ascii.eqb_eq in Hb as ->.
  rewrite mem_app in Hc. simpl in Hc.
  by rewrite Ascii.eqb_refl, orb_true_r in Hc.
Qed.

Lemma search_app_fresh u v c pat :
  mem c pat = false →
  (v = "" ∨ ∃ v', v = String c v') →
  Js.search u (String c pat) = None →
  Js.search (u +:+ v) (String c pat) =
  (λ i, (String.length u + i)%nat) <$> Js.search v (String c pat).
Proof.
  intros Hc Hv. induction u as [|a u IH]; intros H.
  - simpl. by destruct (Js.search v _).
  - apply search_cons_None in H as [H1 H2].
    change (String a u +:+ v) with (String a (u +:+ v)) at 1.
    rewrite search_cons.
    change (String a (u +:+ v)) with (String a u +:+ v).
    rewrite startsWith_app_fresh, H1, IH by done.
    by destruct (Js.search v _).
Qed.

Lemma replace_app_fresh u v c pat rep :
  mem c pat = false →
  (v = "" ∨ ∃ v', v = String c v') →
  Js.search u (String c pat) = None →
  Js.replace (u +:+ v) (String c pat) rep = u +:+ Js.replace v (String c pat) rep.
Proof.
  intros Hc Hv. induction u as [|a u IH]; intros H; [done |].
  apply search_cons_None in H as [H1 H2].
  change (String a u +:+ v) with (String a (u +:+ v)) at 1.
  rewrite replace_cons.
  change (String a (u +:+ v)) with (String a u +:+ v).
  by rewrite startsWith_app_fresh, H1, IH.
Qed.

(** [split] and the characters before the first separator. *)
Lemma first_split s c : Js.first (Js.split s c) = before c s.
Proof.
  induction s as [|a s IH]; simpl; [done |].
  destruct (Ascii.eqb a c); [done |].
  destruct (Js.split s c); simpl in *; by rewrite <- IH.
Qed.

Lemma split_no_sep s c : mem c s = false → Js.split s c = [s].
Proof.
  induction s as [|a s IH]; simpl; [done |].
  intros [-> Hs]%orb_false_iff. by rewrite IH.
Qed.

Lemma split_app_sep s t c :
  mem c s = false → Js.split (s +:+ String c t) c = s :: Js.split t c.
Proof.
  induction s as [|a s IH]; simpl.
  - intros _. by rewrite Ascii.eqb_refl.
  - intros [-> Hs]%orb_false_iff. by rewrite IH.
Qed.

Lemma before_absent c s : mem c s = false → before c s = s.
Proof.
  induction s as [|a s IH]; simpl; [done |].
  intros [-> Hs]%orb_false_iff. by rewrite IH.
Qed.

(** The last character. *)
Lemma lastChar_app s a t : lastChar (s +:+ String a t) = lastChar (String a t).
Proof.
  induction s as [|b s IH]; [done |].
  simpl. rewrite IH. by destruct (s +:+ String a t) eqn:E; [destruct s |].
Qed.

Lemma lastChar_mem s c : lastChar s = Some c → mem c s = true.
Proof.
  induction s as [|a s IH]; [done |].
  destruct s as [|b s].
  - intros [= ->]. simpl. by rewrite Ascii.eqb_refl.
  - intros H. change (mem c (String a (String b s)))
      with (Ascii.eqb a c || mem c (String b s)).
    rewrite IH by done. apply orb_true_r.
Qed.

Lemma substring_last s :
  Js.substring s (Z.of_nat (String.length s) - 1) =
  match lastChar s with
  | Some c => String c ""
  | None => ""
  end.
Proof.
  unfold Js.substring.
  replace (Z.to_nat (Z.of_nat (String.length s) - 1))
    with (Nat.pred (String.length s)) by lia.
  induction s as [|a s IH]; [done |].
  destruct s as [|b s]; [done |].
  exact IH.
Qed.

End StringFacts.

(** ** Path normalisation *)

Section PathNormalizer.

Implicit Types (p q s : string) (c d : ascii).

Lemma indexOf_absent s pat : Js.indexOf s pat = -1 ↔ Js.search s pat = None.
Proof. unfold Js.indexOf. destruct (Js.search s pat); split; (done || lia). Qed.

Lemma withoutIndex_implicit q : implicitForm q → withoutIndex q = q.
Proof. intros H%indexOf_absent. by apply replace_absent. Qed.

Lemma withoutIndex_explicit q :
  implicitForm q → withoutIndex (q +:+ "/index.xml") = q.
Proof.
  intros H%indexOf_absent. unfold withoutIndex.
  rewrite replace_app_fresh; [| done | right; by eexists | done].
  change (Js.replace "/index.xml" "/index.xml" "") with "". apply append_nil_r.
Qed.

Lemma withIndex_implicit q : implicitForm q → withIndex q = q +:+ "/index.xml".
Proof. intros H. unfold withIndex. by rewrite withoutIndex_implicit. Qed.

Lemma withIndex_explicit q :
  implicitForm q → withIndex (q +:+ "/index.xml") = q +:+ "/index.xml".
Proof. intros H. unfold withIndex. by rewrite withoutIndex_explicit. Qed.

End PathNormalizer.

Section RoundTrip.

Implicit Types (p q s : string) (c d : ascii).

Lemma lastChar_segmentsPath segs :
  Forall segment segs → lastChar (segmentsPath segs) ≠ Some "/"%char.
Proof.
  induction 1 as [|seg segs [Hne Hsep] _ IH]; [done |].
  cbn [segmentsPath]. destruct (segmentsPath segs) as [|a t] eqn:E.
  - rewrite append_nil_r. destruct seg as [|b seg]; [done |].
    rewrite lastChar_app. intros H%lastChar_mem. congruence.
  - rewrite <- append_assoc, lastChar_app. exact IH.
Qed.

Lemma getPreviewURLFromPath_explicit s :
  Js.indexOf s ".xml" = -1 →
  getPreviewURLFromPath ("/site/website" +:+ s +:+ "/index.xml") = s.
Proof.
  intros H%indexOf_absent. unfold getPreviewURLFromPath.
  rewrite <- append_assoc, withoutIndex_explicit.
  - apply (replace_here "/site/website" s "").
  - apply indexOf_absent, (search_None_longer _ "/index" ".xml").
    by rewrite (search_app_skip "/site/website" s "." "xml"), H.
Qed.

Lemma getPathFromPreviewURL_plain s :
  mem "?" s = false → mem "#" s = false → mem ";" s = false →
  Js.indexOf s ".html" = -1 → Js.indexOf s ".xml" = -1 →
  lastChar s ≠ Some "/"%char →
  getPathFromPreviewURL s = "/site/website" +:+ s +:+ "/index.xml".
Proof.
  intros Hq Hh Hs Hhtml Hxml Hlast. unfold getPathFromPreviewURL.
  apply search_char, indexOf_absent in Hq, Hh, Hs. cbv zeta.
  rewrite Hq. change (-1 >? 0) with false. cbv iota.
  rewrite Hh. change (-1 >? 0) with false. cbv iota.
  rewrite Hs. change (-1 >? 0) with false. cbv iota.
  rewrite replace_absent by by apply indexOf_absent.
  rewrite Hxml. change (-1 =? -1) with true. cbv iota.
  rewrite substring_last.
  assert (String.eqb
            match lastChar s with Some c => String c "" | None => "" end
            "/" = false) as ->.
  { destruct (lastChar s) as [c|]; [| done].
    apply String.eqb_neq. intros [= ->]. done. }
  simpl negb. cbv iota. by rewrite append_assoc.
Qed.

End RoundTrip.

Section PreviewURL.

Implicit Types (p q s url : string) (c d : ascii).



Lemma startsWith_char a s c :
  Js.startsWith (String a s) (String c "") = Ascii.eqb a c.
Proof. simpl. by rewrite startsWith_nil, andb_true_r, Ascii.eqb_sym. Qed.

(** One of the three guarded cuts of [getPathFromPreviewURL]. *)
Lemma cut_before c s :
  Js.startsWith s (String c "") = false →
  (if Js.indexOf s (String c "") >? 0 then Js.first (Js.split s c) else s)
  = before c s.
Proof.
  intros Hhead. destruct (mem c s) eqn:Hmem.
  - destruct s as [|a s]; [done |].
    unfold Js.indexOf. rewrite search_cons, Hhead.
    rewrite startsWith_char in Hhead. simpl in Hmem.
    rewrite Hhead in Hmem. simpl in Hmem.
    destruct (Js.search s (String c "")) as [i|] eqn:E.
    + cbn [fmap option_fmap option_map].
      assert ((Z.of_nat (S i) >? 0) = true) as -> by (apply Z.gtb_lt; lia).
      apply first_split.
    + apply search_char in E. congruence.
  - pose proof Hmem as Hs%search_char%indexOf_absent. rewrite Hs.
    by rewrite before_absent.
Qed.

Lemma before_delimiters s :
  before ";" (before "#" (before "?" s)) = untilDelimiter s.
Proof.
  induction s as [|a s IH]; [done |].
  cbn [untilDelimiter before]. unfold isDelimiter.
  destruct (Ascii.eqb a "?") eqn:E1; [done |].
  cbn [before]. destruct (Ascii.eqb a "#") eqn:E2; [done |].
  cbn [before]. destruct (Ascii.eqb a ";") eqn:E3; [done |].
  simpl. by rewrite IH.
Qed.


(** The result of [getPathFromPreviewURL] in terms of the part of the URL
    before its first delimiter. *)
Lemma getPathFromPreviewURL_unfold url :
  startsWithDelimiter url = false →
  let stem := Js.replace (untilDelimiter url) ".html" ".xml" in
  getPathFromPreviewURL url =
  "/site/website" +:+
    (if Js.indexOf stem ".xml" =? -1 then
       if negb (String.eqb (Js.substring stem (Z.of_nat (String.length stem) - 1)) "/")
       then stem +:+ "/index.xml" else stem +:+ "index.xml"
     else stem).
Proof.
  intros Hhead. cbv zeta. unfold getPathFromPreviewURL. cbv zeta.
  assert (Js.startsWith url "?" = false ∧ Js.startsWith url "#" = false
          ∧ Js.startsWith url ";" = false) as (H1 & H2 & H3).
  { destruct url as [|a url]; [done |]. rewrite !startsWith_char.
    simpl in Hhead. unfold isDelimiter in Hhead.
    by apply orb_false_iff in Hhead as [[-> ->]%orb_false_iff ->]. }
  rewrite (cut_before "?" url) by done.
  assert (Js.startsWith (before "?" url) "#" = false
          ∧ Js.startsWith (before "#" (before "?" url)) ";" = false) as [H4 H5].
  { destruct url as [|a url]; [done |]. rewrite startsWith_char in H1, H2, H3.
    cbn [before]. rewrite H1. cbn [before]. rewrite H2.
    by rewrite !startsWith_char. }
  rewrite (cut_before "#" _) by done.
  rewrite (cut_before ";" _) by done.
  rewrite before_delimiters.
  destruct (Js.indexOf _ ".xml" =? -1); [| done].
  destruct (negb _); [| done]. by rewrite append_assoc.
Qed.



End PreviewURL.

(** ** Facts about the pattern matcher *)

Section RegexFacts.

Import Regex.

Implicit Types (s t u w : string) (p : list atom) (alts : list (list atom)).

Lemma verbatim_no_dot u : verbatim u = true → mem "." u = false.
Proof.
  induction u as [|a u IH]; [done |].
  simpl. intros [Ha Hu]%andb_true_iff. rewrite IH, orb_false_r by done.
  destruct (Ascii.eqb a ".") eqn:E; [| done].
  apply Ascii.eqb_eq in E as ->. done.
Qed.

Lemma source_verbatim u : verbatim u = true → source u = literal u.
Proof.
  induction u as [|a u IH]; [done |].
  intros H. pose proof (verbatim_no_dot _ H) as Hdot.
  simpl in *. apply andb_true_iff in H as [_ Hu].
  apply orb_false_iff in Hdot as [-> _]. by rewrite IH.
Qed.

Lemma source_app u w : source (u +:+ w) = source u ++ source w.
Proof. induction u as [|a u IH]; simpl; [done | by rewrite IH]. Qed.

(** A sequence that begins with the literal [u] matches only where the
    input begins with [u]. *)
Lemma matchSeq_literal_None u p b s :
  Js.startsWith s u = false → matchSeq (literal u ++ p) b s = None.
Proof.
  revert b s. induction u as [|a u IH]; intros b s H.
  - by rewrite startsWith_nil in H.
  - destruct s as [|c s]; [done |]. simpl in *.
    rewrite Ascii.eqb_sym.
    destruct (Ascii.eqb a c); [| done]. simpl in H. by rewrite IH.
Qed.

Lemma matchSeq_literal_here a u p b t :
  matchSeq (literal (String a u) ++ p) b (String a u +:+ t) =
  (λ n, (String.length (String a u) + n)%nat) <$> matchSeq p false t.
Proof.
  revert a b. induction u as [|c u IH]; intros a b.
  - simpl. rewrite Ascii.eqb_refl. by destruct (matchSeq p false t).
  - change (literal (String a (String c u)) ++ p)
      with (Lit a :: (literal (String c u) ++ p)).
    change (String a (String c u) +:+ t) with (String a (String c u +:+ t)).
    cbn [matchSeq]. rewrite Ascii.eqb_refl, IH.
    by destruct (matchSeq p false t).
Qed.

Lemma matchSeq_literal_self u b :
  matchSeq (literal u) b u = Some (String.length u).
Proof.
  revert b. induction u as [|a u IH]; intros b; [done |].
  cbn [literal matchSeq]. by rewrite Ascii.eqb_refl, IH.
Qed.

Lemma matchAlt_cons_None p alts b s :
  matchSeq p b s = None → matchAlt (p :: alts) b s = matchAlt alts b s.
Proof. intros H. cbn [matchAlt]. by rewrite H. Qed.

Lemma matchAlt_cons_Some p alts b s n :
  matchSeq p b s = Some n → matchAlt (p :: alts) b s = Some n.
Proof. intros H. cbn [matchAlt]. by rewrite H. Qed.

Lemma removeAllFrom_here alts b a u n :
  matchAlt alts b (String a u) = Some (S n) →
  removeAllFrom alts O b (String a u) = removeAllFrom alts n false u.
Proof. intros H. cbn [removeAllFrom]. by rewrite H. Qed.

Lemma removeAllFrom_skip alts u t :
  removeAllFrom alts (String.length u) false (u +:+ t) = removeAllFrom alts O false t.
Proof. induction u as [|a u IH]; [done | exact IH]. Qed.

(** Where the pattern matches nowhere within [u], the scan keeps [u]. *)
Lemma removeAllFrom_keep alts u t :
  (∀ u1 a u2, u = u1 +:+ String a u2 →
              matchAlt alts false (String a u2 +:+ t) = None) →
  removeAllFrom alts O false (u +:+ t) = u +:+ removeAllFrom alts O false t.
Proof.
  induction u as [|a u IH]; intros H; [done |].
  change (String a u +:+ t) with (String a (u +:+ t)) at 1.
  cbn [removeAllFrom].
  change (String a (u +:+ t)) with (String a u +:+ t).
  rewrite (H "" a u eq_refl). rewrite IH; [done |].
  intros u1 c u2 ->. by apply (H (String a u1)).
Qed.

End RegexFacts.

(** ** Resolving the ancestors of a path *)

Section TreeResolver.

Implicit Types (r s t root suffix : string) (segs xs ys : list string).
Implicit Types (items : gmap string DetailedItem).

Lemma segmentsPath_app xs ys :
  segmentsPath (xs ++ ys) = segmentsPath xs +:+ segmentsPath ys.
Proof.
  induction xs as [|x xs IH]; [done |].
  cbn [segmentsPath app]. by rewrite IH, !append_assoc.
Qed.

Lemma segmentsPath_head xs :
  segmentsPath xs = "" ∨ ∃ t, segmentsPath xs = String "/" t.
Proof. destruct xs; [by left | right; by eexists]. Qed.

Lemma split_segmentsPath xs :
  Forall segment xs → Js.split (segmentsPath xs) "/" = "" :: xs.
Proof.
  induction 1 as [|x xs [_ Hx] _ IH]; [done |].
  cbn [segmentsPath].
  change ("/" +:+ x +:+ segmentsPath xs) with (String "/" (x +:+ segmentsPath xs)).
  cbn [Js.split]. rewrite Ascii.eqb_refl. f_equal.
  destruct (segmentsPath_head xs) as [E | [t E]]; rewrite E in *.
  - rewrite append_nil_r, split_no_sep by done.
    destruct xs; [done | discriminate E].
  - rewrite split_app_sep by done. f_equal.
    cbn [Js.split] in IH. rewrite Ascii.eqb_refl in IH. congruence.
Qed.

Lemma segmentsPath_inj xs ys :
  Forall segment xs → Forall segment ys →
  segmentsPath xs = segmentsPath ys → xs = ys.
Proof.
  intros Hxs Hys E. apply (f_equal (λ s, Js.split s "/")) in E.
  rewrite !split_segmentsPath in E by done. congruence.
Qed.

Lemma search_None_within s pat t1 t2 :
  Js.search s pat = None → Js.search s (t1 +:+ pat +:+ t2) = None.
Proof.
  rewrite !search_None. intros H u v ->.
  apply (H (u +:+ t1) (t2 +:+ v)). by rewrite !append_assoc.
Qed.

Lemma verbatim_implicit r :
  Regex.verbatim r = true → Js.search r "/index.xml" = None.
Proof.
  intros H%verbatim_no_dot%search_char.
  apply (search_None_within r "." "/index" "xml" H).
Qed.

(** Every level of a path without [/index.xml] is in implicit form. *)
Lemma level_implicit r xs ys :
  Regex.verbatim r = true →
  Js.search (segmentsPath (xs ++ ys)) "/index.xml" = None →
  implicitForm (r +:+ segmentsPath xs).
Proof.
  intros Hr H. apply indexOf_absent.
  rewrite segmentsPath_app in H. apply search_None_app in H as [H _].
  rewrite search_app_fresh, H; try done.
  - destruct (segmentsPath_head xs) as [-> | [t ->]]; [by left | right; by eexists].
  - by apply verbatim_implicit.
Qed.

Lemma levels_prefixes r xs ys :
  levels (r +:+ segmentsPath xs) ys =
  (λ j, r +:+ segmentsPath (xs ++ take (S j) ys)) <$> seq 0 (length ys).
Proof.
  revert xs. induction ys as [|y ys IH]; intros xs; [done |].
  cbn [levels length seq fmap list_fmap take].
  assert ((r +:+ segmentsPath xs) +:+ "/" +:+ y = r +:+ segmentsPath (xs ++ [y])) as ->.
  { rewrite segmentsPath_app. cbn [segmentsPath]. by rewrite !append_assoc, append_nil_r. }
  f_equal. rewrite IH, <- fmap_S_seq, <- list_fmap_compose.
  apply list_fmap_ext. intros _ j _. simpl. by rewrite <- (assoc_L (++)).
Qed.

Lemma levels_root r segs :
  levels r segs = (λ j, r +:+ segmentsPath (take (S j) segs)) <$> seq 0 (length segs).
Proof.
  rewrite <- (append_nil_r r) at 1. exact (levels_prefixes r [] segs).
Qed.

Lemma itemsFromPath_map_probe items accum segs :
  Forall implicitForm (levels accum segs) →
  itemsFromPath_map items accum segs = probe items <$> levels accum segs.
Proof.
  revert accum. induction segs as [|seg segs IH]; intros accum H; [done |].
  cbn [levels] in H. apply Forall_cons in H as [Hseg H].
  cbn [itemsFromPath_map levels fmap list_fmap].
  rewrite (withIndex_implicit _ Hseg). f_equal. by apply IH.
Qed.

Lemma startsWith_occurs u t pat :
  Js.startsWith t pat = true → Js.search (u +:+ t) pat ≠ None.
Proof.
  intros [w ->]%startsWith_inv H.
  destruct (search_occurs u pat w) as [i Hi]. congruence.
Qed.

Lemma probe_removeItem_same items key : probe (removeItem key items) key = None.
Proof.
  unfold probe, removeItem.
  rewrite (lookup_delete_eq (delete key items)).
  destruct (decide (key +:+ "/index.xml" = key)) as [-> | Hne].
  - by rewrite lookup_delete_eq.
  - by rewrite lookup_delete_ne, lookup_delete_eq.
Qed.

Lemma lookup_removeItem_ne items key k :
  k ≠ key → k ≠ key +:+ "/index.xml" → removeItem key items !! k = items !! k.
Proof.
  intros H1 H2. unfold removeItem. by rewrite !lookup_delete_ne.
Qed.

(** *** The chain below a root

    [r] is the root in implicit form, [root] the argument, in either form;
    the target is [r/seg1/.../segn], in either form. *)
Lemma plain_app s t : Regex.plain (s +:+ t) = Regex.plain s && Regex.plain t.
Proof.
  induction s as [|a s IH]; [done |].
  cbn [String.append Regex.plain]. by rewrite IH, andb_assoc.
Qed.

Lemma verbatim_plain s : Regex.verbatim s = true → Regex.plain s = true.
Proof.
  induction s as [|a s IH]; [done |].
  cbn [Regex.verbatim Regex.plain].
  intros [-> ->%IH]%andb_true_iff. by rewrite orb_true_r.
Qed.

Lemma plain_drop n s : Regex.plain s = true → Regex.plain (Js.drop n s) = true.
Proof.
  revert s. induction n as [|n IH]; intros [|a s]; try done.
  cbn [Regex.plain Js.drop]. intros [_ H]%andb_true_iff. by apply IH.
Qed.

Lemma plain_replace s pat rep :
  Regex.plain s = true → Regex.plain rep = true →
  Regex.plain (Js.replace s pat rep) = true.
Proof.
  intros Hs Hrep. induction s as [|a s IH].
  - unfold Js.replace. destruct (Js.startsWith "" pat); [| done].
    by rewrite plain_app, Hrep, plain_drop.
  - rewrite replace_cons. destruct (Js.startsWith (String a s) pat).
    + by rewrite plain_app, Hrep, plain_drop.
    + cbn [Regex.plain] in *. apply andb_true_iff in Hs as [-> Hs]. by apply IH.
Qed.

(** For a root without syntax characters other than the dot, the pattern
    is one of the fragment. *)
Lemma itemsFromPath_regExp_plain root :
  Regex.plain root = true →
  is_Some (itemsFromPath_regExp (withIndex root) (withoutIndex root)).
Proof.
  intros H. unfold itemsFromPath_regExp, withIndex.
  assert (Regex.plain (withoutIndex root) = true) as Hwithout
    by by apply plain_replace.
  by rewrite plain_app, Hwithout.
Qed.

Lemma itemsFromPath_regExp_verbatim r :
  Regex.verbatim r = true →
  itemsFromPath_regExp (r +:+ "/index.xml") r = Some (rootPattern r).
Proof.
  intros H%verbatim_plain. unfold itemsFromPath_regExp.
  by rewrite plain_app, H.
Qed.

Section Chain.

Variables (r root suffix : string) (segs : list string).

Hypothesis Hr : Regex.verbatim r = true.
Hypothesis Hroot : root = r ∨ root = r +:+ "/index.xml".
Hypothesis Hsuffix : suffix = "" ∨ suffix = "/index.xml".
Hypothesis Hsegs : Forall segment segs.
Hypothesis Hagain : Js.indexOf (segmentsPath segs +:+ suffix) r = -1.
Hypothesis Hindex : Js.indexOf (segmentsPath segs) "/index.xml" = -1.
Hypothesis Hwild :
  Regex.matchSeq (Regex.source "/index.xml") false (segmentsPath segs +:+ suffix) = None.

Lemma root_head : ∃ a r', r = String a r'.
Proof.
  assert (r ≠ "") as Hne.
  { intros E. apply indexOf_absent in Hagain.
    by rewrite E, search_nil_pat in Hagain. }
  clear -Hne. destruct r as [|a r']; [done | by eauto].
Qed.

Lemma root_forms : withIndex root = r +:+ "/index.xml" ∧ withoutIndex root = r.
Proof.
  pose proof (verbatim_implicit r Hr) as H%indexOf_absent.
  destruct Hroot as [-> | ->].
  - by rewrite withIndex_implicit, withoutIndex_implicit.
  - by rewrite withIndex_explicit, withoutIndex_explicit.
Qed.

Lemma regExp_inside u1 a u2 :
  segmentsPath segs = u1 +:+ String a u2 →
  Regex.matchAlt (rootPattern r) false (String a u2 +:+ suffix) = None.
Proof.
  intros Hrel. apply indexOf_absent in Hagain, Hindex.
  assert (Js.startsWith (String a u2 +:+ suffix) r = false) as Hnot.
  { destruct (Js.startsWith _ r) eqn:E; [| done].
    apply (startsWith_occurs u1) in E.
    by rewrite <- append_assoc, <- Hrel in E. }
  unfold rootPattern. cbn [Regex.matchAlt].
  rewrite source_app, !(source_verbatim r Hr).
  rewrite matchSeq_literal_None by done.
  rewrite <- (app_nil_r (Regex.literal r)), matchSeq_literal_None by done.
  rewrite <- (app_nil_r (Regex.literal "/index.xml")).
  rewrite matchSeq_literal_None.
  - change (String a u2 +:+ suffix) with (String a (u2 +:+ suffix)).
    cbn [Regex.matchSeq]. destruct (Ascii.eqb a "/") eqn:Ea; [| done].
    destruct (u2 +:+ suffix) as [|b w] eqn:E; [| done].
    exfalso. apply Ascii.eqb_eq in Ea as ->.
    destruct u2; [| done]. apply (lastChar_segmentsPath segs Hsegs).
    by rewrite Hrel, lastChar_app.
  - destruct (Js.startsWith _ "/index.xml") eqn:E; [| done]. exfalso.
    apply startsWith_app_inv in E as [E | (t & Ht & Hpat & Ht')].
    + apply (startsWith_occurs u1) in E. by rewrite <- Hrel in E.
    + destruct t as [|b t]; [done |].
      destruct Hsuffix as [-> | ->]; [done |].
      cbn in Ht'. apply andb_true_iff in Ht' as [Hb _].
      apply Ascii.eqb_eq in Hb as ->.
      injection Hpat as _ Hpat.
      apply (f_equal (mem "/")) in Hpat. rewrite mem_app in Hpat.
      cbn in Hpat. by rewrite orb_true_r in Hpat.
Qed.

Lemma regExp_suffix : Regex.removeAllFrom (rootPattern r) O false suffix = "".
Proof.
  destruct Hsuffix as [-> | ->]; [done |].
  assert (Js.startsWith "/index.xml" r = false) as Hnot.
  { destruct (Js.startsWith _ r) eqn:E; [| done].
    apply (startsWith_occurs (segmentsPath segs)) in E.
    by apply indexOf_absent in Hagain. }
  rewrite (removeAllFrom_here (rootPattern r) false "/" "index.xml" 9).
  { exact (removeAllFrom_skip (rootPattern r) "index.xml" ""). }
  unfold rootPattern.
  rewrite source_app, (source_verbatim r Hr).
  rewrite matchAlt_cons_None
    by exact (matchSeq_literal_None r _ false _ Hnot).
  rewrite matchAlt_cons_None.
  - apply matchAlt_cons_Some, (matchSeq_literal_self "/index.xml").
  - rewrite <- (app_nil_r (Regex.literal r)).
    exact (matchSeq_literal_None r [] false _ Hnot).
Qed.

Lemma removeAll_target :
  Regex.removeAll (r +:+ segmentsPath segs +:+ suffix) (rootPattern r)
  = segmentsPath segs.
Proof.
  destruct root_head as (a & r' & Er).
  unfold Regex.removeAll. set (re := rootPattern r). rewrite Er.
  change (String a r' +:+ segmentsPath segs +:+ suffix)
    with (String a (r' +:+ segmentsPath segs +:+ suffix)).
  cbn [Regex.removeAllFrom].
  change (String a (r' +:+ segmentsPath segs +:+ suffix))
    with (String a r' +:+ segmentsPath segs +:+ suffix).
  assert (Regex.matchAlt re true (String a r' +:+ segmentsPath segs +:+ suffix)
          = Some (S (String.length r'))) as ->.
  { unfold re, rootPattern. cbn [Regex.matchAlt].
    rewrite source_app, !(source_verbatim r Hr), Er.
    rewrite matchSeq_literal_here, Hwild. cbn [fmap option_fmap option_map].
    rewrite <- (app_nil_r (Regex.literal (String a r'))), matchSeq_literal_here.
    cbn. by rewrite Nat.add_0_r. }
  rewrite removeAllFrom_skip, removeAllFrom_keep; subst re.
  - by rewrite regExp_suffix, append_nil_r.
  - apply regExp_inside.
Qed.

Lemma levels_implicit : Forall implicitForm (levels r segs).
Proof.
  rewrite levels_root. apply Forall_fmap, Forall_forall.
  intros j _. apply (level_implicit r _ (drop (S j) segs) Hr).
  rewrite take_drop. by apply indexOf_absent.
Qed.

(** The chain: the root slot, then one slot per level. *)
Lemma itemsFromPath_chain items :
  itemsFromPath (r +:+ segmentsPath segs +:+ suffix) root items =
  Some ((items !! (r +:+ "/index.xml") ?? items !! root)
          :: (probe items <$> levels r segs)).
Proof.
  unfold itemsFromPath. cbv zeta.
  destruct root_forms as [-> ->].
  destruct (String.eqb _ (r +:+ "/index.xml") || String.eqb _ root) eqn:E.
  - do 2 f_equal.
    assert (segmentsPath segs +:+ suffix = "/index.xml"
            ∨ segmentsPath segs +:+ suffix = "") as [Et | Et].
    { apply orb_true_iff in E as [E%String.eqb_eq | E%String.eqb_eq].
      - left. by apply (inj (String.app r)).
      - destruct Hroot as [-> | ->].
        + right. apply (inj (String.app r)). by rewrite append_nil_r.
        + left. by apply (inj (String.app r)). }
    + by rewrite Et in Hwild.
    + destruct segs; [done | discriminate Et].
  - rewrite (itemsFromPath_regExp_verbatim r Hr).
    rewrite removeAll_target, split_segmentsPath by done.
    cbn [drop]. by rewrite itemsFromPath_map_probe by apply levels_implicit.
Qed.

Lemma no_index_segment : "index.xml" ∉ segs.
Proof.
  intros (l1 & l2 & E)%list_elem_of_split.
  apply indexOf_absent in Hindex.
  rewrite E, segmentsPath_app in Hindex.
  apply (search_None (segmentsPath l1 +:+ segmentsPath ("index.xml" :: l2)) "/index.xml")
    with (u := segmentsPath l1) (v := segmentsPath l2) in Hindex.
  apply Hindex. done.
Qed.

(** A path of some levels, in either form, determines the levels and
    the form. *)
Lemma key_eq_inv xs ys (f g : bool) :
  Forall segment xs → Forall segment ys →
  "index.xml" ∉ xs → "index.xml" ∉ ys →
  r +:+ segmentsPath xs +:+ (if f then "/index.xml" else "") =
  r +:+ segmentsPath ys +:+ (if g then "/index.xml" else "") →
  xs = ys ∧ f = g.
Proof.
  intros Hxs Hys Hx Hy E. apply (inj (String.app r)) in E.
  assert (∀ b : bool, (if b then "/index.xml" else "")
            = segmentsPath (if b then ["index.xml"] else [])) as Hb
    by by intros [].
  rewrite !Hb, <- !segmentsPath_app in E.
  assert (Forall segment ["index.xml"]) as Hi by (repeat constructor; done).
  apply segmentsPath_inj in E.
  - destruct f, g.
    + by apply (inj (λ l, l ++ _)) in E.
    + rewrite app_nil_r in E. subst ys. destruct Hy.
      apply elem_of_app. right. by apply list_elem_of_singleton.
    + rewrite app_nil_r in E. subst xs. destruct Hx.
      apply elem_of_app. right. by apply list_elem_of_singleton.
    + by rewrite !app_nil_r in E.
  - apply Forall_app. by destruct f.
  - apply Forall_app. by destruct g.
Qed.

Lemma levels_lookup j key :
  levels r segs !! j = Some key →
  (j < length segs)%nat ∧ key = r +:+ segmentsPath (take (S j) segs).
Proof.
  rewrite levels_root, list_lookup_fmap.
  destruct (seq 0 (length segs) !! j) as [i|] eqn:E; [| done].
  apply lookup_seq in E as [-> ?]. by intros [= <-].
Qed.

(** Removing the item of level [j] leaves the keys of the other
    levels, in both forms, as they are. *)
Lemma lookup_removeItem_level items j key i (f : bool) :
  levels r segs !! j = Some key → i ≠ S j → (i ≤ length segs)%nat →
  removeItem key items
    !! (r +:+ segmentsPath (take i segs) +:+ (if f then "/index.xml" else ""))
  = items !! (r +:+ segmentsPath (take i segs) +:+ (if f then "/index.xml" else "")).
Proof.
  intros [Hj ->]%levels_lookup Hi Hlen.
  pose proof no_index_segment as Hno.
  assert (∀ n, Forall segment (take n segs) ∧ "index.xml" ∉ take n segs) as Htake.
  { intros n. split; [by apply Forall_take |].
    intros H. apply Hno. eapply (subseteq_take n), H. }
  assert (take i segs ≠ take (S j) segs) as Hne.
  { intros E%(f_equal length). rewrite !length_take in E. lia. }
  apply lookup_removeItem_ne; intros E.
  - rewrite <- (append_nil_r (segmentsPath (take (S j) segs))) in E.
    apply (key_eq_inv _ _ f false) in E as [? _]; try apply Htake. done.
  - rewrite append_assoc in E.
    apply (key_eq_inv _ _ f true) in E as [? _]; try apply Htake. done.
Qed.

Lemma probe_removeItem_level items j key i k :
  levels r segs !! j = Some key → levels r segs !! i = Some k → i ≠ j →
  probe (removeItem key items) k = probe items k.
Proof.
  intros Hkey [Hi ->]%levels_lookup Hne. unfold probe.
  pose proof (lookup_removeItem_level items j key (S i) false Hkey) as H1.
  pose proof (lookup_removeItem_level items j key (S i) true Hkey) as H2.
  rewrite append_nil_r in H1. rewrite <- append_assoc in H2.
  rewrite H1, H2; (done || lia).
Qed.

Lemma itemsFromPath_chain_remove items j key :
  levels r segs !! j = Some key →
  itemsFromPath (r +:+ segmentsPath segs +:+ suffix) root (removeItem key items) =
  (λ chain, <[S j := None]> chain)
    <$> itemsFromPath (r +:+ segmentsPath segs +:+ suffix) root items.
Proof.
  intros Hkey. rewrite !itemsFromPath_chain.
  cbn [fmap option_fmap option_map].
  change (<[S j := None]> (?x :: ?l)) with (x :: <[j := None]> l). do 2 f_equal.
  - assert (removeItem key items !! (r +:+ "/index.xml")
            = items !! (r +:+ "/index.xml")) as H1
      by (apply (lookup_removeItem_level items j key O true Hkey); lia).
    assert (removeItem key items !! (r +:+ "") = items !! (r +:+ "")) as H2
      by (apply (lookup_removeItem_level items j key O false Hkey); lia).
    rewrite append_nil_r in H2. rewrite H1. f_equal.
    by destruct Hroot as [-> | ->].
  - apply list_eq. intros i. rewrite list_lookup_fmap.
    destruct (decide (i = j)) as [-> | Hne].
    + rewrite list_lookup_insert_eq.
      * by rewrite Hkey; cbn; rewrite probe_removeItem_same.
      * rewrite length_fmap. by eapply lookup_lt_Some.
    + rewrite list_lookup_insert_ne, list_lookup_fmap by done.
      destruct (levels r segs !! i) as [k|] eqn:Ek; [| done].
      cbn. f_equal. by eapply probe_removeItem_level.
Qed.

End Chain.

End TreeResolver.

(** ** The claims about path normalisation *)

(** C3, as amended.  For every path [q] in implicit form and its explicit
    form [p = q/index.xml]: [withoutIndex (withIndex p) = withoutIndex p]
    (the spec's first equation has [withIndex p] on the right, which never
    holds) and [withIndex (withoutIndex p) = withIndex p]; [withoutIndex]
    removes the trailing [/index.xml] when it is there and changes nothing
    otherwise; [withIndex] appends [/index.xml] when it is not there and
    changes nothing otherwise; both are idempotent. *)
Theorem canonical_forms_round_trip (q : string) :
  implicitForm q →
  let p := q +:+ "/index.xml" in
  withoutIndex (withIndex p) = withoutIndex p
  ∧ withIndex (withoutIndex p) = withIndex p
  ∧ withoutIndex p = q ∧ withoutIndex q = q
  ∧ withIndex q = p ∧ withIndex p = p
  ∧ withoutIndex (withoutIndex p) = withoutIndex p
  ∧ withoutIndex (withoutIndex q) = withoutIndex q
  ∧ withIndex (withIndex p) = withIndex p
  ∧ withIndex (withIndex q) = withIndex q.
Proof.
  intros Hq p. subst p.
  rewrite !(withIndex_explicit q Hq), !(withoutIndex_explicit q Hq).
  rewrite !(withoutIndex_implicit q Hq), !(withIndex_implicit q Hq).
  rewrite !(withIndex_explicit q Hq). done.
Qed.

Lemma canonical_forms_round_trip_witness :
  implicitForm "/site/website/about"
  ∧ withoutIndex (withIndex "/site/website/about/index.xml")
    = withoutIndex "/site/website/about/index.xml"
  ∧ withIndex (withoutIndex "/site/website/about/index.xml")
    = withIndex "/site/website/about/index.xml".
Proof.
  split; [reflexivity |].
  pose proof (canonical_forms_round_trip "/site/website/about" eq_refl) as H.
  split; [exact (proj1 H) | exact (proj1 (proj2 H))].
Defined.

(** C3 as stated fails: for the explicit path [/a/index.xml],
    [withoutIndex (withIndex p)] is [/a], not [withIndex p]. *)
Lemma canonical_forms_round_trip_counterexample :
  explicitForm "/a/index.xml"
  ∧ withoutIndex (withIndex "/a/index.xml") ≠ withIndex "/a/index.xml".
Proof.
  split; [by exists "/a" | done].
Qed.




(** C10.  For [p = /site/website ++ s ++ /index.xml], where [s] is a
    sequence of segments, each after a [/], and has no [?], [#], [;],
    [.html], [.xml] or [/site/website]:
    [getPathFromPreviewURL (getPreviewURLFromPath p) = p]. *)
Theorem preview_url_round_trip (segs : list string) :
  Forall segment segs →
  Forall (λ pat, Js.indexOf (segmentsPath segs) pat = -1)
    ["?"; "#"; ";"; ".html"; ".xml"; "/site/website"] →
  let p := "/site/website" +:+ segmentsPath segs +:+ "/index.xml" in
  getPathFromPreviewURL (getPreviewURLFromPath p) = p.
Proof.
  intros Hsegs Hpats p. subst p.
  apply Forall_cons in Hpats as [Hq Hpats].
  apply Forall_cons in Hpats as [Hh Hpats].
  apply Forall_cons in Hpats as [Hs Hpats].
  apply Forall_cons in Hpats as [Hhtml Hpats].
  apply Forall_cons in Hpats as [Hxml _].
  rewrite getPreviewURLFromPath_explicit by done.
  apply getPathFromPreviewURL_plain; try done.
  - by apply search_char, indexOf_absent.
  - by apply search_char, indexOf_absent.
  - by apply search_char, indexOf_absent.
  - by apply lastChar_segmentsPath.
Qed.

Lemma preview_url_round_trip_witness :
  getPathFromPreviewURL (getPreviewURLFromPath "/site/website/about/team/index.xml")
  = "/site/website/about/team/index.xml".
Proof.
  apply (preview_url_round_trip ["about"; "team"]).
  - repeat constructor; discriminate.
  - repeat constructor.
Defined.

(** ** The claims about the tree resolver *)

(** For the root itself the chain is the root slot.  With [root] passed in
    implicit form the root item is found under the explicit key or, failing
    that, under the implicit one; with [root] passed in explicit form it is
    found under the explicit key. *)
Lemma itemsFromPath_root (root : string) (items : gmap string DetailedItem) :
  itemsFromPath root root items = Some [items !! withIndex root ?? items !! root].
Proof.
  unfold itemsFromPath. cbv zeta.
  by rewrite (String.eqb_refl root), orb_true_r.
Qed.

Lemma itemsFromPath_root_implicit (q : string) (items : gmap string DetailedItem)
    (rootItem : DetailedItem) :
  implicitForm q →
  items !! (q +:+ "/index.xml") = Some rootItem
  ∨ (items !! (q +:+ "/index.xml") = None ∧ items !! q = Some rootItem) →
  itemsFromPath q q items = Some [Some rootItem].
Proof.
  intros Hq H. rewrite itemsFromPath_root, withIndex_implicit by done.
  by destruct H as [-> | [-> ->]].
Qed.

Lemma itemsFromPath_root_explicit (q : string) (items : gmap string DetailedItem)
    (rootItem : DetailedItem) :
  implicitForm q →
  items !! (q +:+ "/index.xml") = Some rootItem →
  itemsFromPath (q +:+ "/index.xml") (q +:+ "/index.xml") items = Some [Some rootItem].
Proof.
  intros Hq H. rewrite itemsFromPath_root, withIndex_explicit by done.
  by rewrite H.
Qed.

(** With [root] passed in explicit form, an item stored under the implicit
    key only is not found, whatever the index holds there. *)
Lemma itemsFromPath_root_explicit_missed (q : string) (items : gmap string DetailedItem) :
  implicitForm q →
  items !! (q +:+ "/index.xml") = None →
  itemsFromPath (q +:+ "/index.xml") (q +:+ "/index.xml") items = Some [None].
Proof.
  intros Hq H. rewrite itemsFromPath_root, withIndex_explicit by done.
  by rewrite H.
Qed.

(** C2, the failing case.  With [root] passed in explicit form and the root
    item stored under the implicit key, the fallback looks up the explicit
    key again and the single slot of the chain is absent. *)
Theorem itemsFromPath_root_explicit_argument :
  homeIndex !! "/site/website" = Some (page "/site/website")
  ∧ itemsFromPath "/site/website/index.xml" "/site/website/index.xml" homeIndex
    = Some [None].
Proof. split; vm_compute; reflexivity. Qed.

(** Three levels below a root that does not recur.  Let [r] be a root
    without pattern syntax, passed as [r] or [r/index.xml], and let the
    target be [r/s1/s2/s3] or [r/s1/s2/s3/index.xml], where the segments
    are not empty and have no [/], the root does not occur again after its
    leading occurrence, [/index.xml] does not occur in [/s1/s2/s3], and the
    pattern [/index.xml], its dot read as a wildcard, does not match right
    after the root.  When the index has an item for the root and for every
    level, under either form, [itemsFromPath] returns these four items in
    order; removing the item of one level leaves that slot absent and the
    other three as they were. *)
Lemma itemsFromPath_three_levels (r root suffix s1 s2 s3 : string)
    (items : gmap string DetailedItem) (i0 i1 i2 i3 : DetailedItem) :
  Regex.verbatim r = true →
  root = r ∨ root = r +:+ "/index.xml" →
  suffix = "" ∨ suffix = "/index.xml" →
  Forall segment [s1; s2; s3] →
  let rel := segmentsPath [s1; s2; s3] in
  Js.indexOf (rel +:+ suffix) r = -1 →
  Js.indexOf rel "/index.xml" = -1 →
  Regex.matchSeq (Regex.source "/index.xml") false (rel +:+ suffix) = None →
  let k1 := r +:+ "/" +:+ s1 in
  let k2 := k1 +:+ "/" +:+ s2 in
  let k3 := k2 +:+ "/" +:+ s3 in
  items !! (r +:+ "/index.xml") ?? items !! root = Some i0 →
  probe items k1 = Some i1 →
  probe items k2 = Some i2 →
  probe items k3 = Some i3 →
  let path := r +:+ rel +:+ suffix in
  itemsFromPath path root items = Some [Some i0; Some i1; Some i2; Some i3]
  ∧ itemsFromPath path root (removeItem k1 items)
    = Some [Some i0; None; Some i2; Some i3]
  ∧ itemsFromPath path root (removeItem k2 items)
    = Some [Some i0; Some i1; None; Some i3]
  ∧ itemsFromPath path root (removeItem k3 items)
    = Some [Some i0; Some i1; Some i2; None].
Proof.
  intros Hr Hroot Hsuffix Hsegs rel Hagain Hindex Hwild k1 k2 k3 H0 H1 H2 H3 path.
  assert (itemsFromPath path root items = Some [Some i0; Some i1; Some i2; Some i3])
    as Hchain.
  { unfold path, rel. rewrite itemsFromPath_chain by done.
    cbn [levels fmap list_fmap]. fold k1 k2 k3. by rewrite H0, H1, H2, H3. }
  split; [done |].
  pose proof (λ j key, itemsFromPath_chain_remove r root suffix [s1; s2; s3]
                Hr Hroot Hsuffix Hsegs Hagain Hindex Hwild items j key) as Hremove.
  fold rel path in Hremove. rewrite Hchain in Hremove.
  repeat split.
  - by rewrite (Hremove 0%nat k1).
  - by rewrite (Hremove 1%nat k2).
  - by rewrite (Hremove 2%nat k3).
Qed.

(** C5, the failing case.  Below the root [/a], the target [/a/b/a/c] is
    three segments deep and the index has an item for the root and for
    every level.  The pattern that is meant to strip the root is global and
    not anchored, so it also removes the segment [/a] further down: the
    walk goes through [/a/b] and [/a/b/c], which is no ancestor of the
    target, and the chain has three slots, the last one absent, where the
    claim has four items. *)
Theorem itemsFromPath_three_levels_root_repeated :
  Forall (λ key, is_Some (nestedIndex !! key)) ["/a"; "/a/b"; "/a/b/a"; "/a/b/a/c"]
  ∧ itemsFromPath "/a/b/a/c" "/a" nestedIndex
    = Some [Some (page "/a"); Some (page "/a/b"); None]
  ∧ itemsFromPath "/a/b/a/c" "/a" nestedIndex
    ≠ Some [Some (page "/a"); Some (page "/a/b"); Some (page "/a/b/a");
            Some (page "/a/b/a/c")].
Proof.
  split; [| split].
  - repeat constructor; vm_compute; eauto.
  - vm_compute. reflexivity.
  - vm_compute. discriminate.
Qed.

(** ** The pipeline of [onSearch] *)

Section SearchOrchestrator.

Implicit Types (r : SearchResult) (p : Pipeline) (ev : Event) (es : list Event).
Implicit Types (vs : list (option ContentInstance)) (cis : list ContentInstance).
Implicit Types (k : nat).

Lemma run_cons p ev es : run p (ev :: es) = run (step p ev) es.
Proof. done. Qed.

Lemma run_app p es1 es2 : run p (es1 ++ es2) = run (run p es1) es2.
Proof. apply fold_left_app. Qed.

(** Once the search subscription and the inner subscription are gone,
    no event changes the pipeline. *)
Lemma step_ended r w ev : step (ended r w) ev = ended r w.
Proof. by destruct ev. Qed.

Lemma run_ended r w es : run (ended r w) es = ended r w.
Proof. induction es as [|ev es IH]; [done |]. by rewrite run_cons, step_ended. Qed.

Lemma writes_fetchesOf r : filter (λ e, isWrite e = true) (fetchesOf r) = [].
Proof.
  unfold fetchesOf. induction (requests r) as [|x l IH]; [done |].
  cbn [fmap list_fmap]. by rewrite filter_cons_False.
Qed.

Lemma fetches_fetchesOf r :
  filter (λ e, isWrite e = false) (fetchesOf r) = fetchesOf r.
Proof.
  unfold fetchesOf. induction (requests r) as [|x l IH]; [done |].
  cbn [fmap list_fmap]. by rewrite filter_cons_True, IH.
Qed.

Lemma writes_joining r vs : writes (joining r vs) = [].
Proof. apply writes_fetchesOf. Qed.

Lemma writes_ended_next r response :
  writes (ended r (subscribe_next response)) = subscribe_next response.
Proof.
  unfold writes, ended. cbn [effects]. rewrite filter_app, writes_fetchesOf.
  unfold subscribe_next. by destruct (contentInstances response).
Qed.

Lemma writes_ended_error r e :
  writes (ended r (subscribe_error e)) = subscribe_error e.
Proof.
  unfold writes, ended. cbn [effects]. by rewrite filter_app, writes_fetchesOf.
Qed.

Lemma fetches_joining r vs : fetches (joining r vs) = fetchesOf r.
Proof. apply fetches_fetchesOf. Qed.

Lemma fetches_ended r w :
  Forall (λ e, isWrite e = true) w → fetches (ended r w) = fetchesOf r.
Proof.
  intros Hw. unfold fetches, ended. cbn [effects].
  rewrite filter_app, fetches_fetchesOf.
  assert (filter (λ e, isWrite e = false) w = []) as ->; [| apply app_nil_r].
  induction Hw as [|e w He _ IH]; [done |].
  rewrite filter_cons_False, IH; [done | by rewrite He].
Qed.

(** The first answer of [search]. *)
Lemma step_SearchNext_none r :
  requests r = [] →
  step subscribed (SearchNext r) =
  ended r (subscribe_next {| result := r; contentInstances := None |}).
Proof.
  intros E. unfold step, project, ended, fetchesOf. cbn. by rewrite E.
Qed.

Lemma step_SearchNext_some r :
  requests r ≠ [] →
  step subscribed (SearchNext r) =
  joining r (replicate (length (requests r)) None).
Proof.
  intros E. unfold step, project, joining, fetchesOf. cbn.
  by destruct (requests r).
Qed.

(** The events of a pipeline whose inner join is waiting. *)
Lemma step_joining_next r vs k instance :
  vs !! k = Some None →
  step (joining r vs) (InstanceNext k instance) =
  match mapM (λ v, v) (<[k := Some instance]> vs) with
  | Some cis => ended r (subscribe_next {| result := r; contentInstances := Some cis |})
  | None => joining r (<[k := Some instance]> vs)
  end.
Proof.
  intros E. unfold step, joining. cbn. rewrite E.
  by destruct (mapM _ _).
Qed.

Lemma step_joining_next_settled r vs k instance :
  vs !! k ≠ Some None →
  step (joining r vs) (InstanceNext k instance) = joining r vs.
Proof.
  intros E. unfold step, joining. cbn.
  destruct (vs !! k) as [[c|]|]; done.
Qed.

Lemma step_joining_error r vs k e :
  vs !! k = Some None →
  step (joining r vs) (InstanceError k e) = ended r (subscribe_error e).
Proof. intros E. unfold step, joining. cbn. by rewrite E. Qed.

Lemma step_joining_error_settled r vs k e :
  vs !! k ≠ Some None →
  step (joining r vs) (InstanceError k e) = joining r vs.
Proof.
  intros E. unfold step, joining. cbn.
  destruct (vs !! k) as [[c|]|]; done.
Qed.

Lemma step_joining_other r vs ev :
  ¬ isInstanceNext ev → ¬ isInstanceError ev →
  step (joining r vs) ev = joining r vs.
Proof. destruct ev; cbn; tauto. Qed.

(** What [forkJoin] emits: every value is there. *)
Lemma mapM_values_Some vs cis :
  mapM (λ v, v) vs = Some cis ↔
  length cis = length vs ∧ ∀ k c, cis !! k = Some c → vs !! k = Some (Some c).
Proof.
  rewrite mapM_Some. split.
  - intros H. split; [symmetry; by eapply Forall2_length |].
    intros k c Hc. destruct (Forall2_lookup_r _ _ _ _ _ H Hc) as (v & Hv & ->).
    done.
  - intros [Hlen H]. apply Forall2_same_length_lookup. split; [done |].
    intros i x y Hx Hy. by rewrite (H _ _ Hy) in Hx; injection Hx as ->.
Qed.

Lemma mapM_values_None vs : mapM (λ v, v) vs = None ↔ ∃ k, vs !! k = Some None.
Proof.
  rewrite mapM_None, Exists_exists. split.
  - intros (x & [k Hk]%list_elem_of_lookup & ->). by exists k.
  - intros [k Hk]. exists None. split; [by eapply list_elem_of_lookup_2 | done].
Qed.

Lemma pending_dec vs k : vs !! k = Some None ∨ vs !! k ≠ Some None.
Proof. destruct (vs !! k) as [[c|]|]; by eauto. Qed.

Lemma Outcome_cons r vs vs0 ev es p :
  length vs0 = length vs →
  (∀ k c, vs0 !! k = Some (Some c) →
          vs !! k = Some (Some c) ∨ ev = InstanceNext k c) →
  Outcome r vs0 es p → Outcome r vs (ev :: es) p.
Proof.
  intros Hlen Hvs0 [vs' Hl H | cis Hl H | k e H].
  - apply StillJoining; [congruence |].
    intros k c [Hk | Hk]%H; [| right; by right].
    destruct (Hvs0 _ _ Hk) as [? | ->]; [by left | right; by left].
  - apply Published; [congruence |].
    intros k c [Hk | Hk]%H; [| right; by right].
    destruct (Hvs0 _ _ Hk) as [? | ->]; [by left | right; by left].
  - apply (Failed _ _ _ k). by right.
Qed.

Lemma run_joining r es vs : Outcome r vs es (run (joining r vs) es).
Proof.
  revert vs. induction es as [|ev es IH]; intros vs.
  { apply StillJoining; eauto. }
  rewrite run_cons.
  assert (step (joining r vs) ev = joining r vs →
          Outcome r vs (ev :: es) (run (step (joining r vs) ev) es)) as Hsame.
  { intros ->. apply (Outcome_cons r vs vs); [done | by left | apply IH]. }
  destruct ev as [r' | e' | k c | k e |].
  - apply Hsame, step_joining_other; by intros ?.
  - apply Hsame, step_joining_other; by intros ?.
  - destruct (pending_dec vs k) as [Hk | Hk];
      [| by apply Hsame, step_joining_next_settled].
    pose proof (lookup_lt_Some _ _ _ Hk) as Hlt.
    assert (∀ k' c', <[k := Some c]> vs !! k' = Some (Some c') →
              vs !! k' = Some (Some c') ∨ InstanceNext k c = InstanceNext k' c')
      as Hins.
    { intros k' c' H. destruct (decide (k = k')) as [<- | Hne].
      - rewrite list_lookup_insert_eq in H by done. right. congruence.
      - rewrite list_lookup_insert_ne in H by done. by left. }
    rewrite (step_joining_next _ _ _ _ Hk).
    destruct (mapM (λ v, v) (<[k := Some c]> vs)) as [cis|] eqn:Hm.
    + rewrite run_ended.
      apply mapM_values_Some in Hm as [Hlen Hm]. rewrite length_insert in Hlen.
      apply Published; [done |]. intros k' c' Hc.
      destruct (Hins _ _ (Hm _ _ Hc)) as [? | <-]; [by left | right; by left].
    + apply (Outcome_cons r vs (<[k := Some c]> vs)); [apply length_insert | | apply IH].
      intros k' c' H. destruct (Hins _ _ H) as [? | <-]; by eauto.
  - destruct (pending_dec vs k) as [Hk | Hk];
      [| by apply Hsame, step_joining_error_settled].
    rewrite (step_joining_error _ _ _ _ Hk), run_ended.
    apply (Failed _ _ _ k). by left.
  - apply Hsame, step_joining_other; by intros ?.
Qed.





(** While request [k] is pending and no request fails, the join waits. *)
Lemma run_joining_pending r es vs k :
  vs !! k = Some None →
  Forall (λ ev, ¬ isInstanceError ev ∧ ∀ c, ev ≠ InstanceNext k c) es →
  ∃ vs', run (joining r vs) es = joining r vs' ∧ vs' !! k = Some None.
Proof.
  intros Hk Hes. revert vs Hk.
  induction Hes as [|ev es [Herr Hnext] Hes IH]; intros vs Hk; [by exists vs |].
  rewrite run_cons. destruct ev as [r' | e' | k' c | k' e |].
  - rewrite step_joining_other by by intros ?. by apply IH.
  - rewrite step_joining_other by by intros ?. by apply IH.
  - destruct (pending_dec vs k') as [Hk' | Hk'].
    + assert (k' ≠ k) as Hne by (intros ->; by destruct (Hnext c)).
      assert (<[k' := Some c]> vs !! k = Some None) as Hk2
        by by rewrite list_lookup_insert_ne.
      rewrite (step_joining_next _ _ _ _ Hk').
      rewrite (proj2 (mapM_values_None _)) by by exists k.
      by apply IH.
    + rewrite step_joining_next_settled by done. by apply IH.
  - by destruct Herr.
  - rewrite step_joining_other by by intros ?. by apply IH.
Qed.

(** Unmounting while [search] has not answered ends the pipeline. *)
Lemma step_Unmount_subscribed :
  step subscribed Unmount
  = {| searchSubscribed := false; innerJoin := None; stopped := true; effects := [] |}.
Proof. done. Qed.

Lemma step_idle p ev :
  searchSubscribed p = false → innerJoin p = None → step p ev = p.
Proof. intros H1 H2. destruct ev; cbn; by rewrite ?H1, ?H2. Qed.

Lemma run_idle p es :
  searchSubscribed p = false → innerJoin p = None → run p es = p.
Proof.
  intros H1 H2. induction es as [|ev es IH]; [done |].
  by rewrite run_cons, step_idle.
Qed.

End SearchOrchestrator.

(** ** The claims about the search panel *)



(** C7.  When a request of the join fails while it is pending and no
    request has failed before, nothing has been published so far, the error
    reaches [setError], and nothing is published afterwards. *)
Theorem onSearch_fetch_failure (r : SearchResult) (pre post : list Event)
    (k : nat) (e : AjaxError) :
  (k < length (requests r))%nat →
  Forall (λ ev, ¬ isInstanceError ev ∧ ∀ c, ev ≠ InstanceNext k c) pre →
  writes (run (step subscribed (SearchNext r)) pre) = []
  ∧ writes (run (step subscribed (SearchNext r)) (pre ++ InstanceError k e :: post))
    = [SetError (response e)].
Proof.
  intros Hk Hpre.
  assert (requests r ≠ []) as Hne by (intros E; rewrite E in Hk; cbn in Hk; lia).
  rewrite step_SearchNext_some by done.
  destruct (run_joining_pending r pre (replicate (length (requests r)) None) k)
    as (vs' & Hrun & Hvs'); [by apply lookup_replicate_2 | done |].
  rewrite run_app, Hrun, run_cons, (step_joining_error _ _ _ _ Hvs'), run_ended.
  by rewrite writes_joining, writes_ended_error.
Qed.

Lemma onSearch_fetch_failure_witness :
  writes (run (step subscribed (SearchNext featuresResult))
            [InstanceNext 0 (instanceOf "/site/components/a.xml");
             InstanceError 1 serverError;
             InstanceNext 1 (instanceOf "/site/components/b.xml")])
  = [SetError (response serverError)].
Proof.
  apply (onSearch_fetch_failure featuresResult
           [InstanceNext 0 (instanceOf "/site/components/a.xml")]
           [InstanceNext 1 (instanceOf "/site/components/b.xml")] 1 serverError).
  - vm_compute. lia.
  - repeat constructor; [by intros ? | discriminate].
Defined.

(** When the panel unmounts before [search] has answered, no later event
    writes into its state. *)
Lemma onSearch_unmount_before_answer (es : list Event) :
  writes (run (step subscribed Unmount) es) = [].
Proof. by rewrite step_Unmount_subscribed, run_idle. Qed.

(** Once [search] has answered with component items, unmounting changes
    nothing: [takeUntil] comes before [switchMap] and has completed with its
    source, and the inner join stays subscribed. *)
Lemma onSearch_unmount_while_joining_ignored (r : SearchResult) (es : list Event) :
  requests r ≠ [] →
  run (step subscribed (SearchNext r)) (Unmount :: es)
  = run (step subscribed (SearchNext r)) es.
Proof.
  intros Hne. rewrite step_SearchNext_some, run_cons by done.
  by rewrite step_joining_other by by intros ?.
Qed.

(** C8, the failing case.  The panel unmounts after [search] has answered
    with one component item and before its instance arrives: nothing has
    been written so far, and the answer of the request then calls
    [setSearchResults] and [setContentInstanceLookup]; its failure calls
    [setError]. *)
Theorem onSearch_unmount_while_joining :
  let p := run subscribed [SearchNext bannerResult; Unmount] in
  writes p = []
  ∧ writes (step p (InstanceNext 0 (instanceOf "/site/components/banner.xml")))
    = [SetSearchResults bannerResult;
       SetContentInstanceLookup
         (createLookupTable [instanceOf "/site/components/banner.xml"])]
  ∧ writes (step p (InstanceError 0 serverError)) = [SetError (response serverError)].
Proof. repeat split; reflexivity. Qed.

(** ** The claims about drag notifications *)

(** C1, as amended.  For every component item whose instance is not in
    the lookup table, [onDragStart] throws a [TypeError] and publishes no
    message on the bus. *)
Theorem onDragStart_component_without_instance
    (contentInstanceLookup : gmap string ContentInstance)
    (contentTypesLookup : option (gmap string ContentType))
    (item : SearchItem) (bus : list Message) :
  type item = "Component" →
  contentInstanceLookup !! path item = None →
  onDragStart contentInstanceLookup contentTypesLookup item bus = (inl TypeError, bus).
Proof.
  intros Htype Hnone. unfold onDragStart. by rewrite Htype, Hnone.
Qed.

(** With the instance there and the content types known, the message goes
    out. *)
Lemma onDragStart_component_with_instance
    (contentInstanceLookup : gmap string ContentInstance)
    (types : gmap string ContentType)
    (item : SearchItem) (i : ContentInstance) (bus : list Message) :
  type item = "Component" →
  contentInstanceLookup !! path item = Some i →
  onDragStart contentInstanceLookup (Some types) item bus
  = (inr tt,
     bus ++ [COMPONENT_INSTANCE_DRAG_STARTED (Some i)
               (types !! contentTypeId (craftercms i))]).
Proof.
  intros Htype Hi. unfold onDragStart. by rewrite Htype, Hi.
Qed.

Lemma onDragStart_component_without_instance_witness :
  onDragStart ∅ (Some componentTypes) (component "/site/components/banner.xml")
    [ASSET_DRAG_ENDED]
  = (inl TypeError, [ASSET_DRAG_ENDED]).
Proof.
  apply (onDragStart_component_without_instance ∅ (Some componentTypes)
           (component "/site/components/banner.xml") [ASSET_DRAG_ENDED]);
    reflexivity.
Defined.

(** C1 as stated fails: with the lookup table empty, dragging a component
    item is not an ignored call that returns, it throws. *)
Lemma onDragStart_component_without_instance_counterexample :
  (∅ : gmap string ContentInstance) !! path (component "/site/components/banner.xml")
  = None
  ∧ onDragStart ∅ (Some componentTypes) (component "/site/components/banner.xml") []
    = (inl TypeError, [])
  ∧ onDragStart ∅ (Some componentTypes) (component "/site/components/banner.xml") []
    ≠ (inr tt, []).
Proof. repeat split; done. Qed.

(** ** The claim about [getIndividualPaths] *)

Lemma length_removelast {A} (l : list A) : length (removelast l) = Nat.pred (length l).
Proof.
  induction l as [|x l IH]; [done |].
  destruct l as [|y l]; [done |]. cbn [removelast length] in *. by rewrite IH.
Qed.

(** The loop ends by itself: any fuel that covers the length of the array
    gives the same paths. *)
Lemma getIndividualPaths_loop_fuel (fuel1 fuel2 : nat) (array paths : list string) :
  (Nat.max 1 (length array) ≤ fuel1)%nat →
  (Nat.max 1 (length array) ≤ fuel2)%nat →
  getIndividualPaths_loop fuel1 array paths = getIndividualPaths_loop fuel2 array paths.
Proof.
  revert fuel2 array paths.
  induction fuel1 as [|fuel1 IH]; intros [|fuel2] array paths H1 H2; try lia.
  cbn [getIndividualPaths_loop].
  destruct (Nat.eqb_spec (length (removelast array)) 0) as [E | E]; [done |].
  rewrite length_removelast in E. apply IH; rewrite length_removelast; lia.
Qed.

(** C9.  [getIndividualPaths("/a/b/c")] is [["/a/b/c", "/a/b", "/a"]], and
    so is [getIndividualPaths("/a/b/c", "/a")]. *)
Theorem getIndividualPaths_abc :
  getIndividualPaths "/a/b/c" None = ["/a/b/c"; "/a/b"; "/a"]
  ∧ getIndividualPaths "/a/b/c" (Some "/a") = ["/a/b/c"; "/a/b"; "/a"].
Proof. split; reflexivity. Qed.

(** ** More about the path utilities *)

Section PathSegments.

Implicit Types (s t u seg : string) (c : ascii) (l segs : list string).

Lemma split_cons_inv s c : ∃ h l, Js.split s c = h :: l.
Proof.
  destruct s as [|a s]; cbn [Js.split]; [by eauto |].
  destruct (Ascii.eqb a c); [by eauto |]. destruct (Js.split s c); by eauto.
Qed.

Lemma join_cons_cons h h' l sep :
  Js.join (h :: h' :: l) sep = h +:+ sep +:+ Js.join (h' :: l) sep.
Proof. done. Qed.

(** Joining what [split] gives back returns the string. *)
Lemma join_split s c : Js.join (Js.split s c) (String c "") = s.
Proof.
  induction s as [|a s IH]; [done |]. cbn [Js.split].
  destruct (Ascii.eqb_spec a c) as [-> | Hne].
  - destruct (split_cons_inv s c) as (h & t & E). rewrite E in *.
    rewrite join_cons_cons, IH. done.
  - destruct (split_cons_inv s c) as (h & t & E). rewrite E in *.
    destruct t as [|h' t].
    + cbn in *. by rewrite IH.
    + rewrite join_cons_cons in *. by rewrite <- IH.
Qed.

Lemma split_app_last u seg c :
  mem c seg = false →
  Js.split (u +:+ String c seg) c = Js.split u c ++ [seg].
Proof.
  intros Hseg. induction u as [|a u IH].
  - cbn [String.append Js.split]. by rewrite Ascii.eqb_refl, split_no_sep.
  - cbn [String.append Js.split]. rewrite IH.
    destruct (Ascii.eqb a c); [done |].
    by destruct (split_cons_inv u c) as (h & t & ->).
Qed.

(** A string has no separator, or ends with a separator and a last part
    without one. *)
Lemma last_separator s c :
  mem c s = false ∨ ∃ u seg, s = u +:+ String c seg ∧ mem c seg = false.
Proof.
  induction s as [|a s IH]; [by left |].
  destruct IH as [Hs | (u & seg & -> & Hseg)].
  - destruct (Ascii.eqb_spec a c) as [-> | Hne].
    + right. by exists "", s.
    + left. cbn. rewrite Hs, orb_false_r. by apply Ascii.eqb_neq.
  - right. by exists (String a u), seg.
Qed.

Lemma getParentPath_no_separator path :
  mem "/" (withoutIndex path) = false → getParentPath path = "".
Proof. intros H. unfold getParentPath. by rewrite split_no_sep. Qed.

Lemma getParentPath_last path u seg :
  withoutIndex path = u +:+ "/" +:+ seg → mem "/" seg = false →
  getParentPath path = u.
Proof.
  intros E Hseg. unfold getParentPath. rewrite E.
  change (u +:+ "/" +:+ seg) with (u +:+ String "/" seg).
  rewrite split_app_last, removelast_last by done. apply join_split.
Qed.

End PathSegments.

(** X1.  [getParentPath] cuts the last segment off the path without its
    index document: when that path has no [/] the parent is empty, and
    otherwise the parent, a [/] and the last segment make up that path
    again. *)
Theorem getParentPath_cuts_last_segment (path : string) :
  ∃ seg, mem "/" seg = false
         ∧ ((withoutIndex path = seg ∧ getParentPath path = "")
            ∨ withoutIndex path = getParentPath path +:+ "/" +:+ seg).
Proof.
  destruct (last_separator (withoutIndex path) "/") as [H | (u & seg & E & Hseg)].
  - exists (withoutIndex path). split; [done |]. left.
    by rewrite getParentPath_no_separator.
  - exists seg. split; [done |]. right.
    by rewrite (getParentPath_last path u seg).
Qed.

(** X2.  For a path [r/s1/.../sn/s] in implicit form, whose last segment
    has no [/], the parent is [r/s1/.../sn], whether the path is given in
    implicit or in explicit form. *)
Theorem getParentPath_canonical (r s suffix : string) (segs : list string) :
  implicitForm (r +:+ segmentsPath (segs ++ [s])) →
  mem "/" s = false →
  suffix = "" ∨ suffix = "/index.xml" →
  getParentPath (r +:+ segmentsPath (segs ++ [s]) +:+ suffix)
  = r +:+ segmentsPath segs.
Proof.
  intros Himp Hs Hsuffix.
  apply (getParentPath_last _ _ s); [| done].
  assert (withoutIndex ((r +:+ segmentsPath (segs ++ [s])) +:+ suffix)
          = r +:+ segmentsPath (segs ++ [s])) as E.
  { destruct Hsuffix as [-> | ->].
    - by rewrite append_nil_r, withoutIndex_implicit.
    - by rewrite withoutIndex_explicit. }
  rewrite append_assoc in E. rewrite E, segmentsPath_app.
  cbn [segmentsPath]. by rewrite append_nil_r, !append_assoc.
Qed.

Lemma getParentPath_canonical_witness :
  getParentPath "/site/website/about/team/index.xml" = "/site/website/about"
  ∧ getParentPath "/site/website/about/team" = "/site/website/about".
Proof.
  split.
  - apply (getParentPath_canonical "/site/website" "team" "/index.xml" ["about"]);
      [reflexivity | reflexivity | right; reflexivity].
  - apply (getParentPath_canonical "/site/website" "team" "" ["about"]);
      [reflexivity | reflexivity | left; reflexivity].
Defined.

Section Parents.

Implicit Types (s t u seg root : string) (c : ascii) (l segs : list string).

Lemma slash_join x l : "/" +:+ Js.join (x :: l) "/" = segmentsPath (x :: l).
Proof.
  revert x. induction l as [|y l IH]; intros x.
  - cbn. by rewrite append_nil_r.
  - rewrite join_cons_cons.
    change (segmentsPath (x :: y :: l)) with ("/" +:+ x +:+ segmentsPath (y :: l)).
    by rewrite <- IH.
Qed.

Lemma removelast_cons_cons {A} (x y : A) (k : list A) :
  removelast (x :: y :: k) = x :: removelast (y :: k).
Proof. done. Qed.

Lemma getParentsFromPath_split root suffix segs :
  implicitForm (root +:+ segmentsPath segs) →
  Forall segment segs →
  suffix = "" ∨ suffix = "/index.xml" →
  Js.split (Js.replace (withoutIndex (root +:+ segmentsPath segs +:+ suffix)) root "") "/"
  = "" :: segs.
Proof.
  intros Himp Hsegs Hsuffix.
  assert (withoutIndex (root +:+ segmentsPath segs +:+ suffix)
          = root +:+ segmentsPath segs) as ->.
  { rewrite <- append_assoc. destruct Hsuffix as [-> | ->].
    - by rewrite append_nil_r, withoutIndex_implicit.
    - by rewrite withoutIndex_explicit. }
  rewrite (replace_here root (segmentsPath segs) "").
  by apply split_segmentsPath.
Qed.

Lemma getParentsFromPath_map root x l :
  imap (λ i (_ : string),
          root +:+ "/" +:+ Js.join (JsArray.slice ("" :: x :: l) 1 (S i + 1)) "/")
       (x :: l)
  = levels root (x :: l).
Proof.
  rewrite levels_root, <- (imap_seq_0 (x :: l)).
  apply imap_ext. intros i y Hi. cbn beta.
  unfold JsArray.slice. replace (S i + 1 - 1)%nat with (S i) by lia.
  cbn [drop take]. by rewrite <- slash_join.
Qed.

End Parents.

(** X3.  For a path [root/s1/.../sn], in either form, [getParentsFromPath]
    returns the root followed by the levels [root/s1/s2], ...,
    [root/s1/.../s(n-1)]: the path itself is left out, and so is the first
    level [root/s1]. *)
Theorem getParentsFromPath_levels (root suffix : string) (segs : list string) :
  implicitForm (root +:+ segmentsPath segs) →
  Forall segment segs →
  suffix = "" ∨ suffix = "/index.xml" →
  getParentsFromPath (root +:+ segmentsPath segs +:+ suffix) root
  = root :: drop 1 (levels root (removelast segs)).
Proof.
  intros Himp Hsegs Hsuffix. unfold getParentsFromPath. cbv zeta.
  rewrite getParentsFromPath_split by done.
  destruct segs as [|x [|y segs]]; [done | done |].
  rewrite !removelast_cons_cons. destruct (removelast (y :: segs)) as [|z l] eqn:E.
  { by destruct segs. }
  rewrite imap_cons. unfold JsArray.splice. cbn [drop]. f_equal.
  rewrite <- (getParentsFromPath_map root x (z :: l)). unfold compose.
  by rewrite imap_cons.
Qed.

Lemma getParentsFromPath_levels_witness :
  getParentsFromPath "/site/website/a/b/c/d/index.xml" "/site/website"
  = ["/site/website"; "/site/website/a/b"; "/site/website/a/b/c"].
Proof.
  apply (getParentsFromPath_levels "/site/website" "/index.xml" ["a"; "b"; "c"; "d"]).
  - reflexivity.
  - repeat constructor; discriminate.
  - right; reflexivity.
Defined.

Section IndividualPaths.

Implicit Types (s t u seg root : string) (c : ascii) (l segs array paths : list string).

(** The pattern removes one leading and one trailing [/] and nothing else. *)
Lemma trim_inner t :
  lastChar t ≠ Some "/"%char → Regex.removeAllFrom trimPattern O false t = t.
Proof.
  induction t as [|a t IH]; intros Hlast; [done |].
  cbn [Regex.removeAllFrom trimPattern Regex.matchAlt Regex.matchSeq].
  assert (match (if Ascii.eqb a "/"
                 then S <$> match t with
                            | "" => Some O
                            | String _ _ => None
                            end
                 else None) with
          | Some n => Some n
          | None => None
          end = None) as ->.
  { destruct (Ascii.eqb_spec a "/") as [-> | _]; [| done]. by destruct t. }
  f_equal. apply IH. by destruct t.
Qed.

Lemma trim_inner_slash t :
  lastChar t ≠ Some "/"%char → Regex.removeAllFrom trimPattern O false (t +:+ "/") = t.
Proof.
  induction t as [|a t IH]; intros Hlast; [done |].
  change (String a t +:+ "/") with (String a (t +:+ "/")).
  cbn [Regex.removeAllFrom trimPattern Regex.matchAlt Regex.matchSeq].
  assert (match (if Ascii.eqb a "/"
                 then S <$> match t +:+ "/" with
                            | "" => Some O
                            | String _ _ => None
                            end
                 else None) with
          | Some n => Some n
          | None => None
          end = None) as ->.
  { destruct (Ascii.eqb a "/"); [| done]. by destruct t. }
  f_equal. apply IH. by destruct t.
Qed.

Lemma trim_tail (trail : bool) t :
  lastChar t ≠ Some "/"%char →
  Regex.removeAllFrom trimPattern O false (t +:+ slashIf trail) = t.
Proof.
  intros H. destruct trail; cbn [slashIf].
  - by apply trim_inner_slash.
  - rewrite append_nil_r. by apply trim_inner.
Qed.

Lemma trim_spec (lead trail : bool) t :
  Js.startsWith t "/" = false → lastChar t ≠ Some "/"%char →
  Regex.removeAll (slashIf lead +:+ t +:+ slashIf trail) trimPattern = t.
Proof.
  intros Hhead Hlast. unfold Regex.removeAll. destruct lead; cbn [slashIf].
  - change ("/" +:+ t +:+ slashIf trail) with (String "/" (t +:+ slashIf trail)).
    rewrite (removeAllFrom_here trimPattern true "/" (t +:+ slashIf trail) 0);
      [by apply trim_tail | done].
  - cbn [String.append]. destruct t as [|a t].
    + by destruct trail.
    + rewrite <- (trim_tail trail (String a t)) at 2 by done.
      rewrite startsWith_char in Hhead.
      change (String a t +:+ slashIf trail) with (String a (t +:+ slashIf trail)).
      cbn [Regex.removeAllFrom trimPattern Regex.matchAlt Regex.matchSeq].
      by rewrite Hhead.
Qed.

(** The paths the loop pushes: the array, then the array without its last
    element, and so on down to its first element. *)
Lemma getIndividualPaths_loop_spec m fuel array paths :
  length array = S m → (S m ≤ fuel)%nat →
  getIndividualPaths_loop fuel array paths
  = paths ++ reverse ((λ k, "/" +:+ Js.join (take (S k) array) "/") <$> seq 0 (S m)).
Proof.
  revert fuel array paths. induction m as [|m IH]; intros [|fuel] array paths Hlen Hfuel;
    try lia; cbn [getIndividualPaths_loop]; rewrite length_removelast, Hlen; cbn [Nat.pred Nat.eqb].
  - cbn. by rewrite take_ge by lia.
  - rewrite IH; [| by rewrite length_removelast, Hlen | lia].
    rewrite (seq_S (S m)), fmap_app, reverse_app, <- (assoc_L (++)). f_equal.
    cbn [fmap list_fmap reverse rev_append app Nat.add].
    rewrite (take_ge array (S (S m))) by lia. f_equal. f_equal.
    apply list_fmap_ext. intros i k [-> Hk]%lookup_seq.
    rewrite removelast_firstn_len, Hlen. cbn [Nat.pred Nat.add].
    change (firstn (S m) array) with (take (S m) array).
    rewrite take_take. by replace (S i `min` S m)%nat with (S i) by lia.
Qed.

Lemma getIndividualPaths_loop_app fuel array paths :
  (1 ≤ fuel)%nat →
  ∃ rest, getIndividualPaths_loop fuel array paths
          = paths ++ ("/" +:+ Js.join array "/") :: rest.
Proof.
  revert array paths. induction fuel as [|fuel IH]; intros array paths Hfuel; [lia |].
  cbn [getIndividualPaths_loop]. destruct (Nat.eqb _ 0); [by exists [] |].
  destruct fuel as [|fuel].
  - by exists [].
  - destruct (IH (removelast array) (paths ++ ["/" +:+ Js.join array "/"])) as [rest ->];
      [lia |].
    rewrite <- (assoc_L (++)). by eexists.
Qed.

Lemma join_segments_shape x l :
  Forall segment (x :: l) →
  Js.startsWith (Js.join (x :: l) "/") "/" = false
  ∧ lastChar (Js.join (x :: l) "/") ≠ Some "/"%char
  ∧ Js.split (Js.join (x :: l) "/") "/" = x :: l.
Proof.
  intros Hsegs. pose proof (split_segmentsPath _ Hsegs) as Hsplit.
  pose proof (lastChar_segmentsPath _ Hsegs) as Hlast.
  rewrite <- slash_join in Hsplit, Hlast.
  change ("/" +:+ Js.join (x :: l) "/") with (String "/" (Js.join (x :: l) "/"))
    in Hsplit, Hlast.
  cbn [Js.split] in Hsplit. rewrite Ascii.eqb_refl in Hsplit.
  apply Forall_cons in Hsegs as [[Hne Hx] _].
  split; [| split].
  - destruct x as [|a x]; [done |].
    assert (∃ t, Js.join (String a x :: l) "/" = String a t) as [t ->]
      by (destruct l; by eexists).
    rewrite startsWith_char. cbn in Hx. by apply orb_false_iff in Hx as [-> _].
  - destruct (Js.join (x :: l) "/") eqn:E; [done |]. exact Hlast.
  - congruence.
Qed.

Lemma levels_empty_root x l :
  (λ k, "/" +:+ Js.join (take (S k) (x :: l)) "/") <$> seq 0 (length (x :: l))
  = levels "" (x :: l).
Proof.
  rewrite levels_root. apply list_fmap_ext. intros _ k _.
  cbn [take]. by rewrite slash_join.
Qed.

Lemma getIndividualPaths_segments (lead trail : bool) x l :
  Forall segment (x :: l) →
  getIndividualPaths (slashIf lead +:+ Js.join (x :: l) "/" +:+ slashIf trail) None
  = reverse (levels "" (x :: l)).
Proof.
  intros Hsegs. destruct (join_segments_shape x l Hsegs) as (Hhead & Hlast & Hsplit).
  unfold getIndividualPaths. cbv zeta. fold trimPattern.
  rewrite trim_spec, Hsplit by done.
  rewrite (getIndividualPaths_loop_spec (length l)) by (cbn; lia).
  by rewrite app_nil_l, <- levels_empty_root.
Qed.

(** [array.indexOf(x)] finds the first position of [x]. *)
Lemma arrayIndexOf_absent l (x : string) : x ∉ l → Js.arrayIndexOf l x = -1.
Proof.
  induction l as [|y l IH]; [done |].
  intros [Hne Hl]%not_elem_of_cons. cbn [Js.arrayIndexOf].
  apply not_eq_sym, String.eqb_neq in Hne. by rewrite Hne, IH.
Qed.

Lemma arrayIndexOf_first l i (x : string) :
  l !! i = Some x → (∀ j, (j < i)%nat → l !! j ≠ Some x) →
  Js.arrayIndexOf l x = Z.of_nat i.
Proof.
  revert i. induction l as [|y l IH]; intros i Hi Hbefore; [done |].
  cbn [Js.arrayIndexOf]. destruct i as [|i].
  - injection Hi as ->. by rewrite String.eqb_refl.
  - assert (y ≠ x) as Hne by (intros ->; by apply (Hbefore O); [lia |]).
    apply String.eqb_neq in Hne. rewrite Hne.
    rewrite (IH i); [| done | intros j Hj; apply (Hbefore (S j)); lia].
    assert ((Z.of_nat i <? 0) = false) as -> by (apply Z.ltb_ge; lia).
    lia.
Qed.

Lemma getIndividualPaths_rootPath path root :
  getIndividualPaths path (Some root)
  = let paths := getIndividualPaths path None in
    if String.eqb root "" then paths
    else if Js.arrayIndexOf paths (withIndex root) >=? 0 then
      Js.slice0 paths (Js.arrayIndexOf paths (withIndex root) + 1)
    else Js.slice0 paths (Js.arrayIndexOf paths root + 1).
Proof. done. Qed.

Lemma getIndividualPaths_head path :
  ∃ rest, getIndividualPaths path None
          = ("/" +:+ Regex.removeAll path trimPattern) :: rest.
Proof.
  unfold getIndividualPaths. cbv zeta. fold trimPattern.
  destruct (getIndividualPaths_loop_app
              (S (length (Js.split (Regex.removeAll path trimPattern) "/")))
              (Js.split (Regex.removeAll path trimPattern) "/") [])
    as [rest ->]; [lia |].
  rewrite join_split. by exists rest.
Qed.

Lemma levels_lookup_empty_root segs j :
  (j < length segs)%nat →
  levels "" segs !! j = Some (segmentsPath (take (S j) segs)).
Proof.
  intros Hj. rewrite levels_root, list_lookup_fmap, lookup_seq_lt by done. done.
Qed.

Lemma segmentsPath_take_drop segs i :
  segmentsPath segs = segmentsPath (take i segs) +:+ segmentsPath (drop i segs).
Proof. by rewrite <- segmentsPath_app, take_drop. Qed.

End IndividualPaths.

(** X4.  For a path of one or more segments, with or without a leading
    [/] and with or without a trailing [/], [getIndividualPaths] without a
    root returns every prefix of the path, the path first and its first
    segment last. *)
Theorem getIndividualPaths_all_prefixes (lead trail : bool) (x : string) (l : list string) :
  Forall segment (x :: l) →
  getIndividualPaths (slashIf lead +:+ Js.join (x :: l) "/" +:+ slashIf trail) None
  = reverse (levels "" (x :: l)).
Proof. apply getIndividualPaths_segments. Qed.

Lemma getIndividualPaths_all_prefixes_witness :
  getIndividualPaths "site/website/about/" None
  = ["/site/website/about"; "/site/website"; "/site"].
Proof.
  apply (getIndividualPaths_all_prefixes false true "site" ["website"; "about"]).
  repeat constructor; discriminate.
Defined.

(** X5.  For a path [/s1/.../sn] without [/index.xml] and the root
    [/s1/.../sj] with [1 <= j <= n], [getIndividualPaths] returns the
    prefixes of the path from the path itself down to the root, the root
    included. *)
Theorem getIndividualPaths_down_to_root (lead trail : bool) (x : string)
    (l : list string) (j : nat) :
  Forall segment (x :: l) →
  implicitForm (segmentsPath (x :: l)) →
  (j < length (x :: l))%nat →
  getIndividualPaths (slashIf lead +:+ Js.join (x :: l) "/" +:+ slashIf trail)
    (Some (segmentsPath (take (S j) (x :: l))))
  = reverse (drop j (levels "" (x :: l))).
Proof.
  intros Hsegs Himp Hj.
  set (root := segmentsPath (take (S j) (x :: l))).
  rewrite getIndividualPaths_rootPath. cbv zeta.
  rewrite getIndividualPaths_segments by done.
  apply indexOf_absent in Himp.
  assert (String.eqb root "" = false) as -> by by apply String.eqb_neq.
  assert (withIndex root = root +:+ "/index.xml") as Hwith.
  { apply withIndex_implicit, indexOf_absent.
    rewrite (segmentsPath_take_drop (x :: l) (S j)) in Himp.
    by apply search_None_app in Himp as [? _]. }
  assert (∀ i, (i < length (x :: l))%nat →
            segmentsPath (take (S i) (x :: l)) ≠ root +:+ "/index.xml") as Hno.
  { intros i Hi E. rewrite (segmentsPath_take_drop (x :: l) (S i)), E in Himp.
    rewrite append_assoc in Himp.
    destruct (search_occurs root "/index.xml" (segmentsPath (drop (S i) (x :: l)))).
    congruence. }
  assert (length (levels "" (x :: l)) = length (x :: l)) as Hlen
    by by rewrite levels_root, length_fmap, length_seq.
  rewrite Hwith, arrayIndexOf_absent.
  2:{ rewrite elem_of_reverse. intros (i & Hi)%list_elem_of_lookup.
      pose proof (lookup_lt_Some _ _ _ Hi) as Hlt. rewrite Hlen in Hlt.
      rewrite levels_lookup_empty_root in Hi by done.
      apply (Hno i Hlt). congruence. }
  change (-1 >=? 0) with false. cbv iota.
  rewrite (arrayIndexOf_first _ (length (x :: l) - S j)).
  - unfold Js.slice0. rewrite reverse_drop, Hlen. f_equal. lia.
  - rewrite reverse_lookup by lia. rewrite Hlen.
    replace (length (x :: l) - S (length (x :: l) - S j))%nat with j by lia.
    by apply levels_lookup_empty_root.
  - intros i Hi. rewrite reverse_lookup by lia. rewrite Hlen.
    rewrite levels_lookup_empty_root by lia. intros E.
    assert (segmentsPath (take (S (length (x :: l) - S i)) (x :: l)) = root) as E'
      by congruence.
    clear E. rename E' into E. unfold root in E.
    apply segmentsPath_inj in E; [| by apply Forall_take | by apply Forall_take].
    apply (f_equal length) in E. rewrite !length_take in E. lia.
Qed.

Lemma getIndividualPaths_down_to_root_witness :
  getIndividualPaths "/site/website/about/team" (Some "/site/website")
  = ["/site/website/about/team"; "/site/website/about"; "/site/website"].
Proof.
  apply (getIndividualPaths_down_to_root true false "site" ["website"; "about"; "team"] 1).
  - repeat constructor; discriminate.
  - reflexivity.
  - cbn. lia.
Defined.

(** X6.  When neither the root nor its explicit form is among the prefixes
    of the path, [getIndividualPaths] returns no path at all. *)
Theorem getIndividualPaths_unknown_root (path root : string) :
  root ≠ "" →
  root ∉ getIndividualPaths path None →
  withIndex root ∉ getIndividualPaths path None →
  getIndividualPaths path (Some root) = [].
Proof.
  intros Hne H1 H2. rewrite getIndividualPaths_rootPath. cbv zeta.
  apply String.eqb_neq in Hne. rewrite Hne.
  by rewrite !arrayIndexOf_absent.
Qed.

Lemma getIndividualPaths_unknown_root_witness :
  getIndividualPaths "/site/website/about" (Some "/site/components") = [].
Proof.
  apply getIndividualPaths_unknown_root; [discriminate | |];
    vm_compute; intros H; repeat (apply elem_of_cons in H as [H | H]; [discriminate H |]);
    by apply elem_of_nil in H.
Defined.

(** X7.  Without a root the result of [getIndividualPaths] is never empty:
    its first path is a [/] followed by the path without one leading and
    one trailing [/].  A root only cuts the result short. *)
Theorem getIndividualPaths_head_and_prefix (path : string) (rootPath : option string) :
  (∃ rest, getIndividualPaths path None
           = ("/" +:+ Regex.removeAll path trimPattern) :: rest)
  ∧ getIndividualPaths path rootPath `prefix_of` getIndividualPaths path None.
Proof.
  split; [apply getIndividualPaths_head |].
  destruct rootPath as [root|]; [| done].
  rewrite getIndividualPaths_rootPath. cbv zeta.
  destruct (String.eqb root ""); [done |].
  destruct (_ >=? 0); apply prefix_take.
Qed.

(** X8.  Asked for the prefixes of the explicit form of the root itself,
    [getIndividualPaths] returns that path alone. *)
Theorem getIndividualPaths_explicit_root (root : string) :
  root ≠ "" →
  Js.startsWith (withIndex root) "/" = true →
  getIndividualPaths (withIndex root) (Some root) = [withIndex root].
Proof.
  intros Hne Hhead. rewrite getIndividualPaths_rootPath. cbv zeta.
  apply String.eqb_neq in Hne. rewrite Hne.
  destruct (getIndividualPaths_head (withIndex root)) as [rest ->].
  assert ("/" +:+ Regex.removeAll (withIndex root) trimPattern = withIndex root) as ->.
  { apply startsWith_inv in Hhead as [t Ht]. rewrite Ht.
    change ("/" +:+ t) with (String "/" t) in *.
    unfold Regex.removeAll.
    rewrite (removeAllFrom_here trimPattern true "/" t 0) by done.
    rewrite trim_inner; [done |].
    assert (lastChar (String "/" t) = Some "l"%char) as Hlast.
    { rewrite <- Ht. unfold withIndex.
      exact (lastChar_app (withoutIndex root) "/" "index.xml"). }
    destruct t as [|b t]; [done |].
    change (lastChar (String "/" (String b t))) with (lastChar (String b t)) in Hlast.
    by rewrite Hlast. }
  cbn [Js.arrayIndexOf]. rewrite String.eqb_refl. done.
Qed.

Lemma getIndividualPaths_explicit_root_witness :
  getIndividualPaths "/site/website/index.xml" (Some "/site/website")
  = ["/site/website/index.xml"].
Proof.
  apply (getIndividualPaths_explicit_root "/site/website"); [discriminate | reflexivity].
Defined.

(** ** More on the tree resolver *)

Section Resolver.

Implicit Types (items : gmap string DetailedItem) (segs : list string).

Lemma length_itemsFromPath_map items accum folders :
  length (itemsFromPath_map items accum folders) = length folders.
Proof.
  revert accum. induction folders as [|folder folders IH]; intros accum; [done |].
  cbn [itemsFromPath_map length]. by rewrite IH.
Qed.

Lemma levels_at r segs j :
  (j < length segs)%nat →
  levels r segs !! j = Some (r +:+ segmentsPath (take (S j) segs)).
Proof.
  intros Hj. rewrite levels_root, list_lookup_fmap.
  by rewrite (lookup_seq_lt 0 (length segs) j Hj).
Qed.

Lemma length_levels r segs : length (levels r segs) = length segs.
Proof. by rewrite levels_root, length_fmap, length_seq. Qed.

End Resolver.

(** X9.  For a root whose only pattern syntax is the dot, the chain is
    defined for every target and every index, and the number of its slots
    depends on the target and the root only: an item that is missing from
    the index leaves its slot absent and never shortens the chain. *)
Theorem itemsFromPath_length_independent (path root : string)
    (items items' : gmap string DetailedItem) :
  Regex.plain root = true →
  ∃ chain chain',
    itemsFromPath path root items = Some chain
    ∧ itemsFromPath path root items' = Some chain'
    ∧ length chain = length chain'.
Proof.
  intros Hplain. unfold itemsFromPath. cbv zeta.
  destruct (String.eqb path (withIndex root) || String.eqb path root).
  - by eexists _, _.
  - destruct (itemsFromPath_regExp_plain root Hplain) as [regExp ->].
    eexists _, _. split; [done |]. split; [done |].
    cbn [length]. by rewrite !length_itemsFromPath_map.
Qed.

Lemma itemsFromPath_length_independent_witness :
  ∃ chain chain',
    itemsFromPath "/site/web.site/a/b" "/site/web.site" siteIndex = Some chain
    ∧ itemsFromPath "/site/web.site/a/b" "/site/web.site" ∅ = Some chain'
    ∧ length chain = length chain'.
Proof.
  apply (itemsFromPath_length_independent "/site/web.site/a/b" "/site/web.site").
  reflexivity.
Defined.

(** X10.  When the target is the root, each of the two given in either
    form, the chain is the root slot alone: the item under the explicit
    key of the root or, failing that, the item under [root] as passed. *)
Theorem itemsFromPath_root_any_form (r path root : string)
    (items : gmap string DetailedItem) :
  Regex.verbatim r = true →
  r ≠ "" →
  path = r ∨ path = r +:+ "/index.xml" →
  root = r ∨ root = r +:+ "/index.xml" →
  itemsFromPath path root items
  = Some [items !! (r +:+ "/index.xml") ?? items !! root].
Proof.
  intros Hr Hne Hpath Hroot.
  assert (Js.indexOf ("" +:+ "") r = -1) as Hagain.
  { apply indexOf_absent. by destruct r. }
  pose proof (itemsFromPath_chain r root "" [] Hr Hroot (or_introl eq_refl)
                (Forall_nil_2 _) Hagain eq_refl eq_refl items) as Hchain.
  cbn [segmentsPath levels fmap list_fmap] in Hchain.
  rewrite !append_nil_r in Hchain.
  destruct Hpath as [-> | ->]; [exact Hchain |].
  destruct (root_forms r root Hr Hroot) as [Hwith _].
  unfold itemsFromPath. cbv zeta. by rewrite Hwith, String.eqb_refl.
Qed.

Lemma itemsFromPath_root_any_form_witness :
  itemsFromPath "/site/website" "/site/website/index.xml" homeIndex = Some [None]
  ∧ itemsFromPath "/site/website/index.xml" "/site/website" homeIndex
    = Some [Some (page "/site/website")].
Proof.
  split.
  - apply (itemsFromPath_root_any_form "/site/website"); auto; discriminate.
  - apply (itemsFromPath_root_any_form "/site/website"); auto; discriminate.
Defined.

(** X11.  The chain at any depth.  For a root [r] without pattern syntax,
    passed in either form, and a target [r/s1/.../sn] in either form whose
    segments are not empty and have no [/], where the root does not occur
    again, [/index.xml] does not occur among the segments and the pattern
    [/index.xml], its dot read as a wildcard, does not match right after
    the root: the chain has one slot for the root and one per segment, slot
    [j + 1] holds the item of [r/s1/.../s(j+1)] stored under either form,
    and removing the item of one level empties that slot only. *)
Theorem itemsFromPath_any_depth (r root suffix : string) (segs : list string)
    (items : gmap string DetailedItem) :
  Regex.verbatim r = true →
  root = r ∨ root = r +:+ "/index.xml" →
  suffix = "" ∨ suffix = "/index.xml" →
  Forall segment segs →
  Js.indexOf (segmentsPath segs +:+ suffix) r = -1 →
  Js.indexOf (segmentsPath segs) "/index.xml" = -1 →
  Regex.matchSeq (Regex.source "/index.xml") false (segmentsPath segs +:+ suffix) = None →
  let path := r +:+ segmentsPath segs +:+ suffix in
  ∃ chain,
    itemsFromPath path root items = Some chain
    ∧ length chain = S (length segs)
    ∧ chain !! 0%nat = Some (items !! (r +:+ "/index.xml") ?? items !! root)
    ∧ ∀ j, (j < length segs)%nat →
        let level := r +:+ segmentsPath (take (S j) segs) in
        chain !! S j = Some (probe items level)
        ∧ itemsFromPath path root (removeItem level items)
          = Some (<[S j := None]> chain).
Proof.
  intros Hr Hroot Hsuffix Hsegs Hagain Hindex Hwild path. subst path.
  eexists. split; [by apply itemsFromPath_chain |].
  split; [| split].
  - cbn [length]. by rewrite length_fmap, length_levels.
  - done.
  - intros j Hj level. split.
    + change ((?x :: ?l) !! S j) with (l !! j).
      by rewrite list_lookup_fmap, levels_at.
    + rewrite (itemsFromPath_chain_remove r root suffix segs Hr Hroot Hsuffix
                 Hsegs Hagain Hindex Hwild items j level) by by apply levels_at.
      by rewrite itemsFromPath_chain.
Qed.

Lemma itemsFromPath_any_depth_witness :
  ∃ chain,
    itemsFromPath "/site/website/a/b/c/index.xml" "/site/website" siteIndex = Some chain
    ∧ length chain = 4%nat
    ∧ chain !! 2%nat = Some (Some (page "/site/website/a/b/index.xml"))
    ∧ itemsFromPath "/site/website/a/b/c/index.xml" "/site/website"
        (removeItem "/site/website/a/b" siteIndex)
      = Some (<[2%nat := None]> chain).
Proof.
  pose proof (itemsFromPath_any_depth "/site/website" "/site/website" "/index.xml"
                ["a"; "b"; "c"] siteIndex) as H.
  destruct H as (chain & Hchain & Hlen & _ & Hlevel).
  - reflexivity.
  - left; reflexivity.
  - right; reflexivity.
  - repeat constructor; discriminate.
  - reflexivity.
  - reflexivity.
  - reflexivity.
  - destruct (Hlevel 1%nat) as [H1 H2]; [cbn; lia |].
    exists chain. split; [exact Hchain |].
    split; [exact Hlen |]. split; [exact H1 | exact H2].
Defined.

(** ** More on the preview URL *)

Section PreviewPath.

Implicit Types (s t q url pat : string) (c : ascii).

Lemma isDelimiter_clean a s :
  mem "?" (String a s) = false → mem "#" (String a s) = false →
  mem ";" (String a s) = false → isDelimiter a = false.
Proof.
  simpl. unfold isDelimiter.
  by intros [-> _]%orb_false_iff [-> _]%orb_false_iff [-> _]%orb_false_iff.
Qed.

Lemma untilDelimiter_app s t :
  mem "?" s = false → mem "#" s = false → mem ";" s = false →
  untilDelimiter (s +:+ t) = s +:+ untilDelimiter t.
Proof.
  induction s as [|a s IH]; intros Hq Hh Hs; [done |].
  cbn [String.append untilDelimiter].
  rewrite (isDelimiter_clean a s Hq Hh Hs).
  simpl in Hq, Hh, Hs.
  apply orb_false_iff in Hq as [_ Hq], Hh as [_ Hh], Hs as [_ Hs].
  by rewrite IH.
Qed.

Lemma untilDelimiter_clean s :
  mem "?" s = false → mem "#" s = false → mem ";" s = false →
  untilDelimiter s = s.
Proof.
  intros Hq Hh Hs. rewrite <- (append_nil_r s) at 1.
  rewrite untilDelimiter_app by done. apply append_nil_r.
Qed.

Lemma untilDelimiter_query q :
  q = "" ∨ startsWithDelimiter q = true → untilDelimiter q = "".
Proof. intros [-> | H]; [done |]. destruct q as [|c q]; [done |]. simpl in *. by rewrite H. Qed.

Lemma startsWithDelimiter_clean s t :
  s ≠ "" → mem "?" s = false → mem "#" s = false → mem ";" s = false →
  startsWithDelimiter (s +:+ t) = false.
Proof.
  destruct s as [|a s]; [done |]. intros _ Hq Hh Hs.
  exact (isDelimiter_clean a s Hq Hh Hs).
Qed.

Lemma startsWith_snoc_fresh s pat c :
  mem c pat = false → Js.startsWith s pat = false →
  Js.startsWith (s +:+ String c "") pat = false.
Proof.
  revert s. induction pat as [|b pat IH]; intros s Hc H.
  - by rewrite startsWith_nil in H.
  - simpl in Hc. apply orb_false_iff in Hc as [Hb Hc].
    destruct s as [|a s]; simpl in *.
    + by rewrite Hb.
    + destruct (Ascii.eqb b a); [| done]. simpl in *. by apply IH.
Qed.

Lemma search_snoc_fresh s pat c :
  mem c pat = false → Js.search s pat = None →
  Js.search (s +:+ String c "") pat = None.
Proof.
  intros Hc. induction s as [|a s IH]; intros H.
  - apply search_None_startsWith in H as H'.
    change ("" +:+ String c "") with (String c "").
    apply search_cons_None. split; [| done].
    exact (startsWith_snoc_fresh "" pat c Hc H').
  - apply search_cons_None in H as [H1 H2].
    change (String a s +:+ String c "") with (String a (s +:+ String c "")).
    apply search_cons_None. split; [| by apply IH].
    exact (startsWith_snoc_fresh (String a s) pat c Hc H1).
Qed.

(** The steps of [getPathFromPreviewURL] after the three cuts. *)
Lemma getPathFromPreviewURL_shape url :
  ∃ stem,
    getPathFromPreviewURL url =
    "/site/website" +:+
      (if Js.indexOf stem ".xml" =? -1 then
         (if negb (String.eqb (Js.substring stem (Z.of_nat (String.length stem) - 1)) "/")
          then stem +:+ "/" else stem) +:+ "index.xml"
       else stem).
Proof. unfold getPathFromPreviewURL. cbv zeta. eexists. reflexivity. Qed.

End PreviewPath.

(** X12.  A query, a fragment or a path parameter does not change the
    path: what follows the first [?], [#] or [;] of a URL is ignored, as
    long as something precedes it. *)
Theorem getPathFromPreviewURL_ignores_suffix (s rest : string) (c : ascii) :
  s ≠ "" →
  mem "?" s = false → mem "#" s = false → mem ";" s = false →
  isDelimiter c = true →
  getPathFromPreviewURL (s +:+ String c rest) = getPathFromPreviewURL s.
Proof.
  intros Hne Hq Hh Hs Hc.
  rewrite (getPathFromPreviewURL_unfold (s +:+ String c rest))
    by by apply startsWithDelimiter_clean.
  rewrite (getPathFromPreviewURL_unfold s).
  - cbv zeta. rewrite untilDelimiter_app by done.
    rewrite (untilDelimiter_query (String c rest)) by (by right).
    by rewrite append_nil_r, untilDelimiter_clean.
  - rewrite <- (append_nil_r s). by apply startsWithDelimiter_clean.
Qed.

Lemma getPathFromPreviewURL_ignores_suffix_witness :
  getPathFromPreviewURL "/about/team?draft=1#top" = getPathFromPreviewURL "/about/team".
Proof.
  apply (getPathFromPreviewURL_ignores_suffix "/about/team" "draft=1#top" "?");
    (discriminate || reflexivity).
Defined.

(** X13.  A page URL that ends in [.html], before its query if it has
    one, names the document with the same stem and the extension [.xml];
    no index document is appended. *)
Theorem getPathFromPreviewURL_html (s q : string) :
  mem "?" s = false → mem "#" s = false → mem ";" s = false →
  Js.indexOf s ".html" = -1 →
  q = "" ∨ startsWithDelimiter q = true →
  getPathFromPreviewURL (s +:+ ".html" +:+ q) = "/site/website" +:+ s +:+ ".xml".
Proof.
  intros Hq Hh Hs Hhtml Hquery.
  assert (startsWithDelimiter (s +:+ ".html" +:+ q) = false) as Hhead.
  { destruct s as [|a s]; [done |]. by apply startsWithDelimiter_clean. }
  rewrite getPathFromPreviewURL_unfold by done. cbv zeta.
  rewrite untilDelimiter_app by done.
  change (".html" +:+ q) with (String "." (String "h" (String "t" (String "m"
    (String "l" q))))).
  cbn [untilDelimiter]. change (isDelimiter "."%char) with false.
  change (isDelimiter "h"%char) with false. change (isDelimiter "t"%char) with false.
  change (isDelimiter "m"%char) with false. change (isDelimiter "l"%char) with false.
  cbv iota. rewrite (untilDelimiter_query q Hquery).
  apply indexOf_absent in Hhtml.
  rewrite (replace_app_fresh s ".html" "." "html" ".xml" eq_refl
             (or_intror (ex_intro _ "html" eq_refl)) Hhtml).
  change (Js.replace ".html" ".html" ".xml") with ".xml".
  destruct (search_occurs s ".xml" "") as [i Hi].
  change (".xml" +:+ "") with ".xml" in Hi.
  unfold Js.indexOf. rewrite Hi.
  by replace (Z.of_nat i =? -1) with false by (symmetry; apply Z.eqb_neq; lia).
Qed.

Lemma getPathFromPreviewURL_html_witness :
  getPathFromPreviewURL "/about/team.html;v=1" = "/site/website/about/team.xml".
Proof.
  apply (getPathFromPreviewURL_html "/about/team" ";v=1"); try reflexivity.
  right; reflexivity.
Defined.

(** X14.  From a URL back to itself: for a URL [s] without [?], [#], [;],
    [.html] or [.xml] that does not end with [/],
    [getPreviewURLFromPath (getPathFromPreviewURL s) = s]. *)
Theorem preview_url_converse (s : string) :
  mem "?" s = false → mem "#" s = false → mem ";" s = false →
  Js.indexOf s ".html" = -1 → Js.indexOf s ".xml" = -1 →
  lastChar s ≠ Some "/"%char →
  getPreviewURLFromPath (getPathFromPreviewURL s) = s.
Proof.
  intros Hq Hh Hs Hhtml Hxml Hlast.
  rewrite getPathFromPreviewURL_plain by done.
  by apply getPreviewURLFromPath_explicit.
Qed.

Lemma preview_url_converse_witness :
  getPreviewURLFromPath (getPathFromPreviewURL "/about/team") = "/about/team".
Proof.
  apply (preview_url_converse "/about/team"); (reflexivity || discriminate).
Defined.

(** X15.  A trailing [/] makes no difference: for a URL [t] without [?],
    [#], [;], [.html] or [.xml] that does not end with [/], the URLs [t]
    and [t/] name the same index document. *)
Theorem getPathFromPreviewURL_trailing_slash (t : string) :
  mem "?" t = false → mem "#" t = false → mem ";" t = false →
  Js.indexOf t ".html" = -1 → Js.indexOf t ".xml" = -1 →
  lastChar t ≠ Some "/"%char →
  getPathFromPreviewURL (t +:+ "/") = getPathFromPreviewURL t
  ∧ getPathFromPreviewURL t = "/site/website" +:+ t +:+ "/index.xml".
Proof.
  intros Hq Hh Hs Hhtml Hxml Hlast.
  rewrite (getPathFromPreviewURL_plain t) by done. split; [| done].
  assert (startsWithDelimiter (t +:+ "/") = false) as Hhead.
  { destruct t as [|a t]; [done |]. by apply startsWithDelimiter_clean. }
  rewrite getPathFromPreviewURL_unfold by done. cbv zeta.
  rewrite untilDelimiter_app by done.
  change (untilDelimiter "/") with "/".
  apply indexOf_absent in Hhtml, Hxml.
  rewrite replace_absent by by apply search_snoc_fresh.
  assert (Js.indexOf (t +:+ "/") ".xml" = -1) as ->.
  { by apply indexOf_absent, search_snoc_fresh. }
  change (-1 =? -1) with true. cbv iota.
  rewrite substring_last, (lastChar_app t "/" "").
  change (negb (String.eqb _ "/")) with false. cbv iota.
  by rewrite append_assoc.
Qed.

Lemma getPathFromPreviewURL_trailing_slash_witness :
  getPathFromPreviewURL "/about/team/" = getPathFromPreviewURL "/about/team"
  ∧ getPathFromPreviewURL "/about/team" = "/site/website/about/team/index.xml".
Proof.
  apply (getPathFromPreviewURL_trailing_slash "/about/team");
    (reflexivity || discriminate).
Defined.

(** X16.  Whatever the URL, the path [getPathFromPreviewURL] returns
    begins with [/site/website] and names an [.xml] document. *)
Theorem getPathFromPreviewURL_names_document (url : string) :
  Js.startsWith (getPathFromPreviewURL url) "/site/website" = true
  ∧ Js.indexOf (getPathFromPreviewURL url) ".xml" ≠ -1.
Proof.
  destruct (getPathFromPreviewURL_shape url) as [stem ->].
  split; [apply startsWith_app |].
  assert (∀ u v, Js.indexOf (u +:+ ".xml" +:+ v) ".xml" ≠ -1) as Hoccurs.
  { intros u v. destruct (search_occurs u ".xml" v) as [i Hi].
    unfold Js.indexOf. rewrite Hi. lia. }
  destruct (Js.indexOf stem ".xml" =? -1) eqn:E.
  - set (x := if negb _ then _ else _).
    assert ("/site/website" +:+ x +:+ "index.xml"
            = ("/site/website" +:+ x +:+ "index") +:+ ".xml" +:+ "") as ->
      by by rewrite !append_assoc.
    apply Hoccurs.
  - apply Z.eqb_neq in E. unfold Js.indexOf in E.
    destruct (Js.search stem ".xml") as [i|] eqn:Hi; [| done].
    apply search_Some in Hi as (u & v & -> & _).
    rewrite <- append_assoc. apply Hoccurs.
Qed.

(** ** More on the panel *)

Section Panel.

Implicit Types (p : Pipeline) (es pre post : list Event) (r : SearchResult).

Lemma run_subscribed_instances pre :
  Forall isInstanceEvent pre → run subscribed pre = subscribed.
Proof.
  induction 1 as [|ev pre Hev _ IH]; [done |].
  rewrite run_cons. by destruct ev, Hev as [[] | []].
Qed.

Lemma step_SearchError_subscribed e :
  step subscribed (SearchError e)
  = {| searchSubscribed := false; innerJoin := None; stopped := true;
       effects := [SetError (response e)] |}.
Proof. done. Qed.

End Panel.

(** X17.  One outcome per search, whatever the events and their order:
    secondary requests are issued for at most one answer of [search], and
    the subscriber runs at most one of its two callbacks, at most once. *)
Theorem onSearch_single_outcome (es : list Event) :
  let p := run subscribed es in
  (fetches p = [] ∨ ∃ r, SearchNext r ∈ es ∧ fetches p = GetContentInstance <$> requests r)
  ∧ (writes p = []
     ∨ (∃ response, writes p = subscribe_next response)
     ∨ (∃ e, writes p = subscribe_error e)).
Proof.
  cbv zeta. induction es as [|ev es IH]; [by split; left |].
  rewrite run_cons. destruct ev as [r | e | k c | k e |].
  - split.
    + right. exists r. split; [left |].
      destruct (requests r) as [|x l] eqn:E.
      * rewrite step_SearchNext_none, run_ended by done.
        rewrite fetches_ended by (repeat constructor). unfold fetchesOf. by rewrite E.
      * assert (requests r ≠ []) as Hne by by rewrite E.
        rewrite step_SearchNext_some by done. rewrite <- E.
        destruct (run_joining r es (replicate (length (requests r)) None))
          as [vs' _ _ | cis _ _ | k e _].
        -- by rewrite fetches_joining.
        -- by rewrite fetches_ended by (repeat constructor).
        -- by rewrite fetches_ended by (repeat constructor).
    + destruct (requests r) as [|x l] eqn:E.
      * rewrite step_SearchNext_none, run_ended by done.
        rewrite writes_ended_next. right; left. by eexists.
      * assert (requests r ≠ []) as Hne by by rewrite E.
        rewrite step_SearchNext_some by done.
        destruct (run_joining r es (replicate (length (requests r)) None))
          as [vs' _ _ | cis _ _ | k e _].
        -- left. apply writes_joining.
        -- right; left. rewrite writes_ended_next. by eexists.
        -- right; right. rewrite writes_ended_error. by eexists.
  - rewrite step_SearchError_subscribed, run_idle by done.
    split; [by left |]. right; right. by exists e.
  - change (step subscribed (InstanceNext k c)) with subscribed.
    destruct IH as [[Hf | (r & Hr & Hf)] Hw]; (split; [| done]); [by left |].
    right. exists r. split; [by right | done].
  - change (step subscribed (InstanceError k e)) with subscribed.
    destruct IH as [[Hf | (r & Hr & Hf)] Hw]; (split; [| done]); [by left |].
    right. exists r. split; [by right | done].
  - rewrite step_Unmount_subscribed, run_idle by done.
    split; by left.
Qed.

(** X18.  Before [search] has answered, the events of requests do
    nothing.  When the panel then unmounts, nothing is ever requested or
    written, also when [search] answers afterwards; when [search] then
    fails, the error is stored and nothing else happens. *)
Theorem onSearch_before_answer (pre post : list Event) (e : AjaxError) :
  Forall isInstanceEvent pre →
  effects (run subscribed (pre ++ Unmount :: post)) = []
  ∧ effects (run subscribed (pre ++ SearchError e :: post)) = [SetError (response e)].
Proof.
  intros Hpre. rewrite !run_app, !run_cons, (run_subscribed_instances pre Hpre).
  rewrite step_Unmount_subscribed, step_SearchError_subscribed.
  by rewrite !run_idle.
Qed.

Lemma onSearch_before_answer_witness :
  effects (run subscribed [InstanceNext 0 (instanceOf "/site/components/banner.xml");
                           Unmount; SearchNext bannerResult]) = []
  ∧ effects (run subscribed [InstanceNext 0 (instanceOf "/site/components/banner.xml");
                             SearchError serverError; SearchNext bannerResult])
    = [SetError (response serverError)].
Proof.
  apply (onSearch_before_answer
           [InstanceNext 0 (instanceOf "/site/components/banner.xml")]
           [SearchNext bannerResult] serverError).
  repeat constructor.
Defined.

(** X19.  [onDragStart] throws exactly when the item is a component and
    its instance is not in the lookup or the content types are not known
    yet; it then publishes nothing.  In every other case it publishes one
    message and returns. *)
Theorem onDragStart_fails_iff (contentInstanceLookup : gmap string ContentInstance)
    (contentTypesLookup : option (gmap string ContentType))
    (item : SearchItem) (bus : list Message) :
  (fst (onDragStart contentInstanceLookup contentTypesLookup item bus) = inl TypeError
   ↔ type item = "Component"
     ∧ (contentInstanceLookup !! path item = None ∨ contentTypesLookup = None))
  ∧ (onDragStart contentInstanceLookup contentTypesLookup item bus = (inl TypeError, bus)
     ∨ ∃ m, onDragStart contentInstanceLookup contentTypesLookup item bus
            = (inr tt, bus ++ [m])).
Proof.
  unfold onDragStart.
  destruct (String.eqb (type item) "Component") eqn:E.
  - apply String.eqb_eq in E.
    destruct (contentInstanceLookup !! path item) as [i|] eqn:Hi,
      contentTypesLookup as [types|]; cbn.
    + split; [| right; by eexists]. split; [done |]. by intros [_ [? | ?]].
    + split; [| by left]. split; [| done]. intros _. split; [done | by right].
    + split; [| by left]. split; [| done]. intros _. split; [done | by left].
    + split; [| by left]. split; [| done]. intros _. split; [done | by left].
  - apply String.eqb_neq in E. cbn.
    split; [| right; by eexists]. split; [done |]. by intros [? _].
Qed.

(** X20.  The messages of a drag come in pairs of one kind: after a drag
    start that was published, [onDragEnd] publishes one message, about a
    component when the start was about a component and about an asset
    otherwise, and the kind is that of the item. *)
Theorem onDragEnd_matches_start (contentInstanceLookup : gmap string ContentInstance)
    (contentTypesLookup : option (gmap string ContentType))
    (item : SearchItem) (bus bus' : list Message) :
  onDragStart contentInstanceLookup contentTypesLookup item bus = (inr tt, bus') →
  ∃ started ended,
    bus' = bus ++ [started]
    ∧ onDragEnd item bus' = (inr tt, bus ++ [started; ended])
    ∧ forComponent started = forComponent ended
    ∧ forComponent started = String.eqb (type item) "Component".
Proof.
  unfold onDragStart, onDragEnd.
  destruct (String.eqb (type item) "Component") eqn:E.
  - destruct (contentInstanceLookup !! path item) as [i|],
      contentTypesLookup as [types|]; cbn; try done.
    intros [= <-]. eexists _, _. split; [done |].
    unfold next. rewrite <- (assoc_L (++)). by split.
  - cbn. intros [= <-]. eexists _, _. split; [done |].
    unfold next. rewrite <- (assoc_L (++)). by split.
Qed.

Lemma onDragEnd_matches_start_witness :
  ∃ started ended,
    onDragEnd (image "/static-assets/images/logo.png")
      [ASSET_DRAG_STARTED (image "/static-assets/images/logo.png")]
    = (inr tt, [started; ended])
    ∧ forComponent started = forComponent ended.
Proof.
  destruct (onDragEnd_matches_start ∅ None (image "/static-assets/images/logo.png") []
              [ASSET_DRAG_STARTED (image "/static-assets/images/logo.png")] eq_refl)
    as (started & ended & _ & H1 & H2 & _).
  by exists started, ended.
Defined.

(** ** The path utilities together *)

(** X21.  The paths [getIndividualPaths] returns for a path of segments
    in implicit form go up one level at a time: every path after the first
    is what [getParentPath] returns for the path before it. *)
Theorem getIndividualPaths_parent_chain (x : string) (l : list string) (j : nat) :
  Forall segment (x :: l) →
  implicitForm (segmentsPath (x :: l)) →
  (S j < length (x :: l))%nat →
  ∃ p, getIndividualPaths (segmentsPath (x :: l)) None !! j = Some p
       ∧ getIndividualPaths (segmentsPath (x :: l)) None !! S j = Some (getParentPath p).
Proof.
  intros Hsegs Himplicit Hj.
  pose proof (getIndividualPaths_segments true false x l Hsegs) as Hpaths.
  change (slashIf true) with "/" in Hpaths. change (slashIf false) with "" in Hpaths.
  rewrite append_nil_r, slash_join in Hpaths. rewrite Hpaths.
  set (segs := x :: l) in *. set (n := length segs) in *.
  assert (length (levels "" segs) = n) as Hlen by apply length_levels.
  rewrite !reverse_lookup by lia. rewrite Hlen.
  rewrite !levels_lookup_empty_root by (fold n; lia).
  replace (S (n - S j)) with (n - j)%nat by lia.
  replace (S (n - S (S j))) with (n - S j)%nat by lia.
  eexists. split; [done |]. f_equal. symmetry.
  destruct (lookup_lt_is_Some_2 segs (n - S j)%nat) as [s Hs]; [fold n; lia |].
  assert (take (n - j) segs = take (n - S j) segs ++ [s]) as Htake.
  { replace (n - j)%nat with (S (n - S j)) by lia. by apply take_S_r. }
  assert (segment s) as [_ Hsep].
  { rewrite Forall_forall in Hsegs. apply Hsegs. by eapply list_elem_of_lookup_2. }
  apply (getParentPath_last _ _ s); [| done].
  rewrite Htake, segmentsPath_app. cbn [segmentsPath]. rewrite append_nil_r.
  apply withoutIndex_implicit. unfold implicitForm in *.
  apply indexOf_absent. apply indexOf_absent in Himplicit.
  rewrite (segmentsPath_take_drop segs (n - j)), Htake, segmentsPath_app in Himplicit.
  cbn [segmentsPath] in Himplicit. rewrite append_nil_r in Himplicit.
  by apply search_None_app in Himplicit as [? _].
Qed.

Lemma getIndividualPaths_parent_chain_witness :
  ∃ p, getIndividualPaths "/site/website/about" None !! 0%nat = Some p
       ∧ getIndividualPaths "/site/website/about" None !! 1%nat = Some (getParentPath p).
Proof.
  apply (getIndividualPaths_parent_chain "site" ["website"; "about"] 0).
  - repeat constructor; discriminate.
  - reflexivity.
  - cbn; lia.
Defined.
